(** * The commands extension of remirror: registry, unchained and chained commands

    A shallow embedding of [CommandsExtension] (the builtin extension that
    collects the commands of all extensions, wraps each one into an
    unchained command with its [isEnabled] probe and into a chain step, and
    publishes both in the manager store), with the properties its
    specification states about it.

    JavaScript closures over local variables become explicit state passing;
    thrown errors are an exceptional completion that keeps the state reached
    so far, since nothing in JavaScript rolls a mutation back. *)

From stdpp Require Import base option list strings gmap fin_maps fin_sets.

Local Open Scope string_scope.
Local Open Scope list_scope.

#[local] Set Warnings "-clear-no-such-hyp".

(** ** Errors *)

(** The two members of [ErrorConstant] (package core-constants) that the
    extension uses. *)
Inductive ErrorConstant : Type :=
  | COMMANDS_CALLED_IN_OUTER_SCOPE
  | DUPLICATE_COMMAND_NAMES.

(** What a [throw] carries: the error raised by [invariant] with the options
    it was given, or the [TypeError] of the language when something that is
    not a function is called. *)
Inductive Exception : Type :=
  | RemirrorError (code : option ErrorConstant) (message : option string)
  | TypeError.

Definition error_code (e : Exception) : option ErrorConstant :=
  match e with
  | RemirrorError c _ => c
  | TypeError => None
  end.

(** The three errors of the specification, by what identifies them in the
    code: the first two by their error code, the last one by its message
    (its [invariant] is given no code). *)
Definition DuplicateNameError (e : Exception) : Prop :=
  error_code e = Some DUPLICATE_COMMAND_NAMES.

Definition OuterScopeError (e : Exception) : Prop :=
  error_code e = Some COMMANDS_CALLED_IN_OUTER_SCOPE.

Definition ChainTransactionIdentityError : Exception :=
  RemirrorError None
    (Some "Chaining currently only supports methods which do not clone the transaction object.").

(** ** Effects: state and exceptions *)

Inductive Completion (A : Type) : Type :=
  | Normal (a : A)
  | Throw (e : Exception).
Arguments Normal {A} a.
Arguments Throw {A} e.

(** A computation over a mutable world [S]: it completes normally with a
    value or abruptly with an exception, and in both cases leaves a world. *)
Definition Eff (S A : Type) : Type := S -> Completion A * S.

Definition ret {S A} (a : A) : Eff S A := fun s => (Normal a, s).

Definition throw {S A} (e : Exception) : Eff S A := fun s => (Throw e, s).

Definition bind {S A B} (m : Eff S A) (k : A -> Eff S B) : Eff S B :=
  fun s =>
    match m s with
    | (Normal a, s') => k a s'
    | (Throw e, s') => (Throw e, s')
    end.

Definition gets {S A} (f : S -> A) : Eff S A := fun s => (Normal (f s), s).

Definition modify {S} (f : S -> S) : Eff S unit := fun s => (Normal tt, f s).

Declare Scope eff_scope.
Delimit Scope eff_scope with eff.
Notation "x <- m ;; k" := (bind m (fun x => k))
  (at level 100, m at next level, right associativity) : eff_scope.
Notation "m ;; k" := (bind m (fun _ => k))
  (at level 100, right associativity) : eff_scope.
Local Open Scope eff_scope.

(** [invariant(condition, { code, message })] of core-helpers: throws when the
    condition is falsy, does nothing otherwise. *)
Definition invariant {S} (condition : bool) (code : option ErrorConstant)
    (message : option string) : Eff S unit :=
  if condition then ret tt else throw (RemirrorError code message).

(** [for (const x of xs) body(x)] over a loop-carried value. *)
Fixpoint for_of {S A B} (body : A -> B -> Eff S B) (xs : list A) (acc : B)
    : Eff S B :=
  match xs with
  | [] => ret acc
  | x :: rest => acc' <- body x acc ;; for_of body rest acc'
  end.

(** ** The editing surface *)

(** Modelled from the spec: the editing surface is an external collaborator
    (the types [EditorState], [Transaction] and the view come from the
    editor library).  Its contract is taken from the specification: a
    current state that holds the live pending change-set, a commit
    operation that takes a change-set, and a focus side effect; the pending
    change-set is a mutable object attached to the state snapshot, so that
    [state.tr] read twice on one state is the same object. *)

(** An edit recorded in a change-set; only its identity matters here. *)
Definition Edit : Type := string.

(** A [Transaction] is a mutable object: a reference, compared with [===] by
    identity.  Its contents live in the view's heap of transactions. *)
Definition Transaction : Type := nat.

(** [state.doc] and [state.tr], the pending change-set of this snapshot. *)
Record EditorState : Type := mkState {
  doc : list Edit;
  tr : Transaction;
}.

(** The editing surface and everything reachable from it.  [transactions]
    holds the edits accumulated in each change-set object; [dispatched] logs
    every call of the real [view.dispatch], oldest first, with the contents
    the change-set had at that moment; [focused] counts the calls of
    [view.focus]. *)
Record View : Type := mkView {
  state : EditorState;
  transactions : gmap Transaction (list Edit);
  next_transaction : Transaction;
  dispatched : list (Transaction * list Edit);
  focused : nat;
}.

Definition edits_of (t : Transaction) (v : View) : list Edit :=
  default [] (transactions v !! t).

(** In-place mutation of a change-set object: [transaction.insertText(..)]
    and the like append to the edits it holds. *)
Definition add_edits (t : Transaction) (es : list Edit) (v : View) : View :=
  {| state := state v;
     transactions := <[t := edits_of t v ++ es]> (transactions v);
     next_transaction := next_transaction v;
     dispatched := dispatched v;
     focused := focused v |}.

(** The view after a commit of the change-set [t]: its edits are applied to
    the document, and the view moves to a new state, whose pending
    change-set is a new, empty object. *)
Definition commit (t : Transaction) (v : View) : View :=
  {| state := {| doc := doc (state v) ++ edits_of t v;
                 tr := next_transaction v |};
     transactions := <[next_transaction v := []]> (transactions v);
     next_transaction := S (next_transaction v);
     dispatched := dispatched v ++ [(t, edits_of t v)];
     focused := focused v |}.

(** [view.dispatch(transaction)], the real commit operation. *)
Definition view_dispatch (t : Transaction) : Eff View unit :=
  modify (commit t).

Definition focus_once (v : View) : View :=
  {| state := state v;
     transactions := transactions v;
     next_transaction := next_transaction v;
     dispatched := dispatched v;
     focused := S (focused v) |}.

(** [view.focus()]. *)
Definition view_focus : Eff View unit := modify focus_once.

(** ** Commands *)

Definition DispatchFunction : Type := Transaction -> Eff View unit.

(** The parameter of a command function, [{ state, dispatch, view }].  The
    [view] member is the handle of the one editing surface: it is the world
    the computation runs in, so a command function reaches [view.dispatch],
    [view.focus] and [view.state] through [view_dispatch], [view_focus] and
    [gets state]. *)
Record CommandFunctionParameter : Type := mkParameter {
  cp_state : EditorState;
  cp_dispatch : option DispatchFunction;
}.

Definition CommandFunction : Type := CommandFunctionParameter -> Eff View bool.

(** The values passed as arguments to a command. *)
Inductive Value : Type :=
  | VUndefined
  | VBoolean (b : bool)
  | VNumber (n : Z)
  | VString (s : string)
  | VFunction (f : Transaction -> Eff View unit).

(** Calling a value with a transaction as its argument. *)
Definition call_value (f : Value) (t : Transaction) : Eff View unit :=
  match f with
  | VFunction g => g t
  | _ => throw TypeError
  end.

(** [(...args) => CommandFunction].  Applying a command to its arguments
    only builds the command function; the effects are those of the command
    function. *)
Definition ExtensionCommandFunction : Type := list Value -> CommandFunction.

(** *** [unchainedFactory] *)

Record UnchainedFactoryParameter : Type := mkUnchainedParameter {
  ufp_command : ExtensionCommandFunction;
  ufp_shouldDispatch : option bool;
}.

Definition unchainedFactory (parameter : UnchainedFactoryParameter)
    : list Value -> Eff View bool :=
  fun args =>
    let shouldDispatch := default true (ufp_shouldDispatch parameter) in
    let command := ufp_command parameter in
    dispatch <- (if shouldDispatch
                 then (view_focus ;; ret (Some view_dispatch))
                 else ret None) ;;
    st <- gets state ;;
    command args {| cp_state := st; cp_dispatch := dispatch |}.

(** *** [chainedFactory] *)

(** The chain object is shared and mutable: it is referred to by the chain
    steps stored in it, by the manager store and by every caller.  It lives
    in a heap and is named by a reference. *)
Definition Ref : Type := nat.

Record ChainedFactoryParameter : Type := mkChainedParameter {
  cfp_command : ExtensionCommandFunction;
  cfp_chained : Ref;
}.

(** The [dispatch] a chain step hands to the command: it only checks that it
    is given the pending change-set of the state captured by the step. *)
Definition chain_dispatch (st : EditorState) : DispatchFunction :=
  fun transaction =>
    invariant (Nat.eqb transaction (tr st)) None
      (Some "Chaining currently only supports methods which do not clone the transaction object.").

Definition chainedFactory (parameter : ChainedFactoryParameter)
    : list Value -> Eff View Ref :=
  fun spread =>
    let chained := cfp_chained parameter in
    let command := cfp_command parameter in
    st <- gets state ;;
    command spread {| cp_state := st; cp_dispatch := Some (chain_dispatch st) |} ;;
    ret chained.

(** *** The builtin command [customTransaction] *)

Definition customTransaction : ExtensionCommandFunction :=
  fun args =>
    let transactionUpdater := nth 0 args VUndefined in
    fun p =>
      match cp_dispatch p with
      | Some dispatch =>
          call_value transactionUpdater (tr (cp_state p)) ;;
          dispatch (tr (cp_state p)) ;;
          ret true
      | None => ret true
      end.

(** ** The registry build *)

(** An extension as the registry build sees it: its name and its optional
    [createCommands] method, given by the entries of the object the method
    returns, in the order of [entries]. *)
Record Extension : Type := mkExtension {
  ext_name : string;
  createCommands : option (list (string * ExtensionCommandFunction));
}.

(** A value of the local object [unchained]. *)
Record UnchainedEntry : Type := mkUnchained {
  ue_name : string;
  ue_command : list Value -> Eff View bool;
  ue_isEnabled : list Value -> Eff View bool;
}.

(** A value of the published [commands] object: a function that carries an
    [isEnabled] property. *)
Record CommandShape : Type := mkCommandShape {
  cs_call : list Value -> Eff View bool;
  cs_isEnabled : list Value -> Eff View bool;
}.

(** A member of the chain object: a chain step made by [chainedFactory], or
    the function stored under [run]. *)
Inductive ChainedMember : Type :=
  | ChainMethod (f : list Value -> Eff View Ref)
  | RunMethod (f : Eff View unit).

(** The keys [commands] and [chain] of the manager store. *)
Record ManagerStore : Type := mkStore {
  store_commands : option (gmap string CommandShape);
  store_chain : option Ref;
}.

(** The manager: the heap of chain objects and the store. *)
Record Manager : Type := mkManager {
  heap : gmap Ref (gmap string ChainedMember);
  next_ref : Ref;
  store : ManagerStore;
}.

Definition setStoreKey_commands (c : gmap string CommandShape) : Eff Manager unit :=
  modify (fun m =>
    {| heap := heap m; next_ref := next_ref m;
       store := {| store_commands := Some c;
                   store_chain := store_chain (store m) |} |}).

Definition setStoreKey_chain (r : Ref) : Eff Manager unit :=
  modify (fun m =>
    {| heap := heap m; next_ref := next_ref m;
       store := {| store_commands := store_commands (store m);
                   store_chain := Some r |} |}).

(** [object[name] = member] on the chain object at [r]. *)
Definition set_member (r : Ref) (name : string) (member : ChainedMember)
    : Eff Manager unit :=
  modify (fun m =>
    {| heap := <[r := <[name := member]> (default ∅ (heap m !! r))]> (heap m);
       next_ref := next_ref m;
       store := store m |}).

(** The local variables of one call of [onView], which the two handlers it
    returns close over. *)
Record Scope : Type := mkScope {
  sc_commands : gmap string CommandShape;
  sc_names : gset string;
  sc_chained : Ref;
  sc_unchained : gmap string UnchainedEntry;
}.

(** The names that are forbidden from being used as a command name. *)
Definition forbiddenNames : gset string := {[ "run"; "chain" ]}.

(** Modelled from the spec: [throwIfNameNotUnique] of the extension helpers,
    whose source is not part of the files at hand.  It is the name guard
    without the reserved names: it fails with the given code when the name
    was already registered in this build, and records the name otherwise. *)
Definition throwIfNameNotUnique {S} (name : string) (set : gset string)
    (code : ErrorConstant) : Eff S (gset string) :=
  invariant (negb (bool_decide (name ∈ set))) (Some code) None ;;
  ret ({[ name ]} ∪ set).

(** The body of the loop over the entries of one extension. *)
Definition register_command (extension : Extension)
    (entry : string * ExtensionCommandFunction) (sc : Scope) : Eff Manager Scope :=
  let '(name, command) := entry in
  names <- throwIfNameNotUnique name (sc_names sc) DUPLICATE_COMMAND_NAMES ;;
  invariant (negb (bool_decide (name ∈ forbiddenNames)))
    (Some DUPLICATE_COMMAND_NAMES)
    (Some "The command name you chose is forbidden.") ;;
  let unchained :=
    <[name := {| ue_name := ext_name extension;
                 ue_command :=
                   unchainedFactory {| ufp_command := command;
                                       ufp_shouldDispatch := None |};
                 ue_isEnabled :=
                   unchainedFactory {| ufp_command := command;
                                       ufp_shouldDispatch := Some false |} |}]>
      (sc_unchained sc) in
  set_member (sc_chained sc) name
    (ChainMethod (chainedFactory {| cfp_command := command;
                                    cfp_chained := sc_chained sc |})) ;;
  ret {| sc_commands := sc_commands sc;
         sc_names := names;
         sc_chained := sc_chained sc;
         sc_unchained := unchained |}.

(** [onView]: the local objects are created; the chain object is allocated
    in the heap. *)
Definition onView : Eff Manager Scope :=
  fun m =>
    (Normal {| sc_commands := ∅; sc_names := ∅;
               sc_chained := next_ref m; sc_unchained := ∅ |},
     {| heap := <[next_ref m := ∅]> (heap m);
        next_ref := S (next_ref m);
        store := store m |}).

Definition forEachExtension (extension : Extension) (sc : Scope)
    : Eff Manager Scope :=
  match createCommands extension with
  | None => ret sc
  | Some extensionCommands =>
      for_of (register_command extension) extensionCommands sc
  end.

(** [chained.run], a closure over the view handle only. *)
Definition chained_run : Eff View unit :=
  st <- gets state ;; view_dispatch (tr st).

Definition afterExtensionLoop (sc : Scope) : Eff Manager unit :=
  let commands :=
    foldl (fun acc (e : string * UnchainedEntry) =>
             <[e.1 := {| cs_call := ue_command e.2;
                         cs_isEnabled := ue_isEnabled e.2 |}]> acc)
          (sc_commands sc) (map_to_list (sc_unchained sc)) in
  set_member (sc_chained sc) "run" (RunMethod chained_run) ;;
  setStoreKey_commands commands ;;
  setStoreKey_chain (sc_chained sc).

(** Modelled from the spec: the view-ready phase of the host scheduler,
    whose source is not part of the files at hand.  It calls [onView] once,
    visits every extension in the order it is given, and calls the finishing
    handler once after all of them; an error thrown by a handler ends the
    phase. *)
Definition viewReadyPhase (extensions : list Extension) : Eff Manager unit :=
  sc <- onView ;;
  sc' <- for_of forEachExtension extensions sc ;;
  afterExtensionLoop sc'.

(** The accessors published by [onCreate].  An object is truthy, also an
    empty one, so the [invariant] of each fails exactly when the key is not
    set in the manager store. *)
Definition getCommands : Eff Manager (gmap string CommandShape) :=
  commands <- gets (fun m => store_commands (store m)) ;;
  match commands with
  | Some c => ret c
  | None => throw (RemirrorError (Some COMMANDS_CALLED_IN_OUTER_SCOPE) None)
  end.

Definition getChain : Eff Manager Ref :=
  chain <- gets (fun m => store_chain (store m)) ;;
  match chain with
  | Some c => ret c
  | None => throw (RemirrorError (Some COMMANDS_CALLED_IN_OUTER_SCOPE) None)
  end.

(** The extension store, where [onCreate] publishes the two accessors. *)
Record ExtensionStore : Type := mkExtensionStore {
  es_getCommands : option (Eff Manager (gmap string CommandShape));
  es_getChain : option (Eff Manager Ref);
}.

(** [onCreate]: the [afterExtensionLoop] handler it returns, which runs in
    the setup phase, before any view exists. *)
Definition onCreate (s : ExtensionStore) : ExtensionStore :=
  {| es_getCommands := Some getCommands; es_getChain := Some getChain |}.

(** [CommandsExtension] itself, as a member of the list of extensions. *)
Definition CommandsExtension : Extension :=
  {| ext_name := "commands";
     createCommands := Some [("customTransaction", customTransaction)] |}.

(** A manager on which no view-ready phase has run. *)
Definition new_manager : Manager :=
  {| heap := ∅; next_ref := 0;
     store := {| store_commands := None; store_chain := None |} |}.

(** ** Chain expressions *)

(** [object.name(...args)] on a chain object, where [name] is the name of a
    command or a name the object has no member for (calling what is not
    there is a [TypeError]).  The member [run] is not called through this
    function but through [call_run]: it returns no object to go on with. *)
Definition call_step (h : gmap Ref (gmap string ChainedMember)) (object : Ref)
    (name : string) (args : list Value) : Eff View Ref :=
  match h !! object ≫= (.!! name) with
  | Some (ChainMethod f) => f args
  | _ => throw TypeError
  end.

(** [object.run()]. *)
Definition call_run (h : gmap Ref (gmap string ChainedMember)) (object : Ref)
    : Eff View unit :=
  match h !! object ≫= (.!! "run") with
  | Some (RunMethod f) => f
  | _ => throw TypeError
  end.

(** [object.n1(...a1).n2(...a2)...]: the value of the expression, with the
    list of the objects the steps returned. *)
Fixpoint call_steps (h : gmap Ref (gmap string ChainedMember)) (object : Ref)
    (calls : list (string * list Value)) : Eff View (Ref * list Ref) :=
  match calls with
  | [] => ret (object, [])
  | (name, args) :: rest =>
      object' <- call_step h object name args ;;
      r <- call_steps h object' rest ;;
      ret (r.1, object' :: r.2)
  end.

(** [chain.n1(...a1).n2(...a2)....run()]. *)
Definition chain_expression (h : gmap Ref (gmap string ChainedMember))
    (chain : Ref) (calls : list (string * list Value)) : Eff View (list Ref) :=
  r <- call_steps h chain calls ;;
  call_run h r.1 ;;
  ret r.2.

(** ** The registry, stated apart from the loops that build it *)

(** [object[key(x)] = val(x)], the assignment both loops of the build are
    made of. *)
Definition put {X B : Type} (key : X -> string) (val : X -> B)
    (acc : gmap string B) (x : X) : gmap string B :=
  <[key x := val x]> acc.

(** Every command of every extension, in the order the build meets them. *)
Definition contributions (extensions : list Extension)
    : list (Extension * (string * ExtensionCommandFunction)) :=
  flat_map (fun extension =>
              match createCommands extension with
              | None => []
              | Some extensionCommands => map (pair extension) extensionCommands
              end) extensions.

Definition contribution_name (x : Extension * (string * ExtensionCommandFunction))
    : string := x.2.1.

Definition contributed_names (extensions : list Extension) : list string :=
  contribution_name <$> contributions extensions.

(** The name guard over a sequence of names: every name is new when it is
    met and is not reserved. *)
Fixpoint acceptable (seen : gset string) (ns : list string) : bool :=
  match ns with
  | [] => true
  | n :: rest =>
      bool_decide (n ∉ seen) && bool_decide (n ∉ forbiddenNames)
      && acceptable ({[ n ]} ∪ seen) rest
  end.

Definition unchained_entry (x : Extension * (string * ExtensionCommandFunction))
    : UnchainedEntry :=
  {| ue_name := ext_name x.1;
     ue_command :=
       unchainedFactory {| ufp_command := x.2.2; ufp_shouldDispatch := None |};
     ue_isEnabled :=
       unchainedFactory {| ufp_command := x.2.2;
                           ufp_shouldDispatch := Some false |} |}.

Definition chain_step (chained : Ref)
    (x : Extension * (string * ExtensionCommandFunction)) : ChainedMember :=
  ChainMethod (chainedFactory {| cfp_command := x.2.2; cfp_chained := chained |}).

Definition command_shape (e : string * UnchainedEntry) : CommandShape :=
  {| cs_call := ue_command e.2; cs_isEnabled := ue_isEnabled e.2 |}.

Definition register (x : Extension * (string * ExtensionCommandFunction))
    : Scope -> Eff Manager Scope :=
  register_command x.1 x.2.

(** The object published under the key [commands]. *)
Definition registry_commands (extensions : list Extension)
    : gmap string CommandShape :=
  foldl (put fst command_shape) ∅
    (map_to_list
       (foldl (put contribution_name unchained_entry) ∅
              (contributions extensions))).

(** The chain object, at reference [r], published under the key [chain]. *)
Definition registry_chain (r : Ref) (extensions : list Extension)
    : gmap string ChainedMember :=
  <["run" := RunMethod chained_run]>
    (foldl (put contribution_name (chain_step r)) ∅ (contributions extensions)).

Definition published (extensions : list Extension) (m : Manager) : Manager :=
  {| heap := <[next_ref m := registry_chain (next_ref m) extensions]> (heap m);
     next_ref := S (next_ref m);
     store := {| store_commands := Some (registry_commands extensions);
                 store_chain := Some (next_ref m) |} |}.

(** ** Vocabulary of the properties *)

(** The parameter a chain step builds for the command function when the view
    is [v]. *)
Definition chain_parameter (v : View) : CommandFunctionParameter :=
  {| cp_state := state v; cp_dispatch := Some (chain_dispatch (state v)) |}.

(** A step that mutates the pending change-set in place, at the view [v] in
    which the chain step runs its command function: the command function
    returns, leaving the view [w]; the state of the view, and so its pending
    change-set, is the same object as before; nothing has been committed;
    and the pending change-set has gained the edits [es]. *)
Definition mutates_in_place_at (command : ExtensionCommandFunction)
    (args : list Value) (es : list Edit) (v w : View) : Prop :=
  (exists b, command args (chain_parameter v) v = (Normal b, w)) /\
  state w = state v /\
  dispatched w = dispatched v /\
  edits_of (tr (state v)) w = edits_of (tr (state v)) v ++ es.

(** The steps [calls] of a chain expression, run one after the other from
    the view [v], are calls of registered commands, each of which mutates
    the pending change-set in place at the view in which it is reached; they
    add the edits [edits], step by step, and leave the view [w]. *)
Inductive in_place_steps (extensions : list Extension)
    : list (string * list Value) -> list (list Edit) -> View -> View -> Prop :=
  | in_place_done v : in_place_steps extensions [] [] v v
  | in_place_step name args calls es edits v w w' ext cs command :
      ext ∈ extensions -> createCommands ext = Some cs ->
      (name, command) ∈ cs ->
      mutates_in_place_at command args es v w ->
      in_place_steps extensions calls edits w w' ->
      in_place_steps extensions ((name, args) :: calls) (es :: edits) v w'.

(** [dispatch(t)] as a command function writes it, under its usual test
    [if (dispatch)]. *)
Definition call_dispatch (p : CommandFunctionParameter) (t : Transaction)
    : Eff View unit :=
  match cp_dispatch p with
  | Some dispatch => dispatch t
  | None => ret tt
  end.

(** A command function that hands the change-set chosen by [pick] to the
    commit operation of its parameter and goes on with [after]. *)
Definition commits_transaction
    (pick : CommandFunctionParameter -> Eff View Transaction)
    (after : CommandFunction) : CommandFunction :=
  fun p => t <- pick p ;; call_dispatch p t ;; after p.

(** The commits made between two views: what the log of [view.dispatch] has
    gained. *)
Definition commits_between (v v' : View) (new : list (Transaction * list Edit))
    : Prop :=
  dispatched v' = dispatched v ++ new.

(** ** Sample extensions *)

(** A command in the usual style: it edits the pending change-set and
    commits it, both only when it is given a commit operation. *)
Definition toggleBold : ExtensionCommandFunction :=
  fun _ p =>
    match cp_dispatch p with
    | Some dispatch =>
        modify (add_edits (tr (cp_state p)) ["toggleBold"]) ;;
        dispatch (tr (cp_state p)) ;;
        ret true
    | None => ret true
    end.

Definition insertText : ExtensionCommandFunction :=
  fun args p =>
    let text := match args with VString s :: _ => s | _ => "text" end in
    match cp_dispatch p with
    | Some dispatch =>
        modify (add_edits (tr (cp_state p)) [text]) ;;
        dispatch (tr (cp_state p)) ;;
        ret true
    | None => ret true
    end.

(** A command that does not look at [dispatch] and works on the view handle:
    it focuses the view and commits the pending change-set. *)
Definition commitThroughView : ExtensionCommandFunction :=
  fun _ _ =>
    view_focus ;;
    st <- gets state ;;
    view_dispatch (tr st) ;;
    ret true.

(** A command that commits twice: the pending change-set, then the one that
    is pending after that commit. *)
Definition commitTwice : ExtensionCommandFunction :=
  fun _ p =>
    match cp_dispatch p with
    | Some dispatch =>
        dispatch (tr (cp_state p)) ;;
        st <- gets state ;;
        dispatch (tr st) ;;
        ret true
    | None => ret true
    end.

(** [new Transaction]: a new change-set object, as a command makes one when
    it clones the pending change-set instead of mutating it. *)
Definition new_transaction : Eff View Transaction :=
  fun v =>
    (Normal (next_transaction v),
     {| state := state v;
        transactions := <[next_transaction v := edits_of (tr (state v)) v]>
                          (transactions v);
        next_transaction := S (next_transaction v);
        dispatched := dispatched v;
        focused := focused v |}).

(** A command that commits a clone of the pending change-set. *)
Definition commitClone : ExtensionCommandFunction :=
  fun _ => commits_transaction (fun _ => new_transaction) (fun _ => ret true).

Definition boldExtension : Extension :=
  {| ext_name := "bold"; createCommands := Some [("toggleBold", toggleBold)] |}.

Definition textExtension : Extension :=
  {| ext_name := "text"; createCommands := Some [("insertText", insertText)] |}.

(** An extension without a [createCommands] method. *)
Definition plainExtension : Extension :=
  {| ext_name := "plain"; createCommands := None |}.

Definition surfaceExtension : Extension :=
  {| ext_name := "surface";
     createCommands := Some [("commitThroughView", commitThroughView)] |}.

Definition twiceExtension : Extension :=
  {| ext_name := "twice"; createCommands := Some [("commitTwice", commitTwice)] |}.

Definition cloneExtension : Extension :=
  {| ext_name := "clone"; createCommands := Some [("commitClone", commitClone)] |}.

(** An extension that asks for the reserved name [run]. *)
Definition runnerExtension : Extension :=
  {| ext_name := "runner"; createCommands := Some [("run", toggleBold)] |}.

(** Extensions for a chain whose second step commits a clone. *)
Definition failing_extensions : list Extension :=
  [boldExtension; cloneExtension].

Definition sample_extensions : list Extension :=
  [CommandsExtension; boldExtension; plainExtension; textExtension].

(** A view on an empty document, with an empty pending change-set. *)
Definition sample_view : View :=
  {| state := {| doc := []; tr := 0 |};
     transactions := {[ 0 := [] ]};
     next_transaction := 1;
     dispatched := [];
     focused := 0 |}.

(** A command whose effect depends on the view: it marks the pending
    change-set unless it is marked already, and says whether it did. *)
Definition markOnce : ExtensionCommandFunction :=
  fun _ p =>
    match cp_dispatch p with
    | Some dispatch =>
        es <- gets (edits_of (tr (cp_state p))) ;;
        if bool_decide ("mark" ∈ es) then ret false
        else (modify (add_edits (tr (cp_state p)) ["mark"]) ;;
              dispatch (tr (cp_state p)) ;;
              ret true)
    | None => ret true
    end.

Definition markExtension : Extension :=
  {| ext_name := "mark"; createCommands := Some [("markOnce", markOnce)] |}.

(** The chain expression [chain.toggleBold().markOnce().markOnce().run()]:
    its second [markOnce] finds the mark and adds nothing. *)
Definition marking_extensions : list Extension :=
  [boldExtension; markExtension].

Definition marking_calls : list (string * list Value) :=
  [("toggleBold", []); ("markOnce", []); ("markOnce", [])].

Definition marking_edits : list (list Edit) :=
  [["toggleBold"]; ["mark"]; []].

Definition marked_view : View :=
  add_edits 0 ["mark"] (add_edits 0 ["toggleBold"] sample_view).

(** The sample view after the step [chain.toggleBold()]. *)
Definition bold_view : View := add_edits 0 ["toggleBold"] sample_view.

(** The steps of the sample chain expression
    [chain.toggleBold().insertText('hi').customTransaction(updater).run()]
    and the edits each of them adds. *)
Definition sample_updater : Value :=
  VFunction (fun t => modify (add_edits t ["custom"])).

Definition sample_calls : list (string * list Value) :=
  [("toggleBold", []); ("insertText", [VString "hi"]);
   ("customTransaction", [sample_updater])].

Definition sample_edits : list (list Edit) :=
  [["toggleBold"]; ["hi"]; ["custom"]].

(** * Properties *)

(** ** The monad and its loops *)

Lemma bind_normal {S A B} (m : Eff S A) (k : A -> Eff S B) s a s' :
  m s = (Normal a, s') -> bind m k s = k a s'.
Proof. intros H. unfold bind. by rewrite H. Qed.

Lemma bind_throw {S A B} (m : Eff S A) (k : A -> Eff S B) s e s' :
  m s = (Throw e, s') -> bind m k s = (Throw e, s').
Proof. intros H. unfold bind. by rewrite H. Qed.

Lemma for_of_app {S A B} (body : A -> B -> Eff S B) xs ys acc s :
  for_of body (xs ++ ys) acc s = bind (for_of body xs acc) (for_of body ys) s.
Proof.
  revert acc s. induction xs as [|x xs IH]; intros acc s; [reflexivity|].
  simpl. unfold bind.
  destruct (body x acc s) as [[acc'|e] s']; [|reflexivity].
  rewrite IH. reflexivity.
Qed.

Lemma for_of_map {S A A' B} (f : A -> A') (body : A' -> B -> Eff S B) xs acc s :
  for_of body (map f xs) acc s = for_of (fun x => body (f x)) xs acc s.
Proof.
  revert acc s. induction xs as [|x xs IH]; intros acc s; [reflexivity|].
  simpl. unfold bind. destruct (body (f x) acc s) as [[acc'|e] s']; [|reflexivity].
  apply IH.
Qed.

(** ** Objects filled key by key *)

Section put.
Context {X B : Type} (key : X -> string) (val : X -> B).
Lemma foldl_put_notin xs (m0 : gmap string B) n :
  n ∉ key <$> xs -> foldl (put key val) m0 xs !! n = m0 !! n.
Proof.
  revert m0. induction xs as [|x xs IH]; intros m0 Hn; [done|].
  rewrite fmap_cons, not_elem_of_cons in Hn. destruct Hn as [Hne Hn].
  simpl. rewrite IH by done. unfold put. by rewrite lookup_insert_ne.
Qed.

Lemma foldl_put_in xs (m0 : gmap string B) x :
  NoDup (key <$> xs) -> x ∈ xs -> foldl (put key val) m0 xs !! key x = Some (val x).
Proof.
  revert m0. induction xs as [|y xs IH]; intros m0 Hnd Hx.
  - by apply elem_of_nil in Hx.
  - rewrite fmap_cons, NoDup_cons in Hnd. destruct Hnd as [Hy Hnd].
    apply elem_of_cons in Hx. destruct Hx as [->|Hx].
    + simpl. rewrite foldl_put_notin by done.
      unfold put. by rewrite lookup_insert_eq.
    + simpl. by apply IH.
Qed.

Lemma foldl_put_dom xs (m0 : gmap string B) :
  dom (foldl (put key val) m0 xs) = list_to_set (key <$> xs) ∪ dom m0.
Proof.
  revert m0. induction xs as [|x xs IH]; intros m0.
  - simpl. set_solver.
  - simpl. rewrite IH. unfold put. rewrite dom_insert_L. set_solver.
Qed.
End put.

Lemma acceptable_true seen ns :
  acceptable seen ns = true <->
  NoDup ns ∧ Forall (fun n => (n ∉ seen) ∧ (n ∉ forbiddenNames)) ns.
Proof.
  revert seen. induction ns as [|n ns IH]; intros seen; simpl.
  - split; [intros _; split; constructor | done].
  - rewrite !andb_true_iff, !bool_decide_eq_true, IH, NoDup_cons, Forall_cons.
    split.
    + intros [[Hs Hf] [Hnd Hall]]. split_and!; try done.
      * intros Hin. rewrite Forall_forall in Hall.
        apply Hall in Hin. set_solver.
      * eapply Forall_impl; [exact Hall|]. intros x [Hx ?]. set_solver.
    + intros [[Hn Hnd] [[Hs Hf] Hall]]. split_and!; try done.
      rewrite Forall_forall in Hall |- *. intros x Hx.
      destruct (Hall x Hx) as [? ?]. split; [|done].
      assert (x <> n) by (intros ->; done). set_solver.
Qed.

Lemma acceptable_false_of_clash ns i n :
  ns !! i = Some n -> n ∈ take i ns \/ n ∈ forbiddenNames ->
  acceptable ∅ ns = false.
Proof.
  intros Hi Hclash. apply not_true_is_false. intros Hacc.
  apply acceptable_true in Hacc. destruct Hacc as [Hnd Hall].
  destruct Hclash as [Hdup|Hforb].
  - rewrite <- (take_drop_middle ns i n Hi) in Hnd.
    apply NoDup_app in Hnd. destruct Hnd as (_ & Hdisj & _).
    apply (Hdisj n Hdup). left.
  - rewrite Forall_forall in Hall.
    destruct (Hall n) as [_ Hn]; [by eapply list_elem_of_lookup_2|done].
Qed.

(** ** One registration *)

Lemma register_command_fresh ext name command sc m :
  name ∉ sc_names sc -> name ∉ forbiddenNames ->
  register_command ext (name, command) sc m =
    (Normal {| sc_commands := sc_commands sc;
               sc_names := {[ name ]} ∪ sc_names sc;
               sc_chained := sc_chained sc;
               sc_unchained :=
                 put contribution_name unchained_entry (sc_unchained sc)
                     (ext, (name, command)) |},
     {| heap := <[sc_chained sc :=
                    put contribution_name (chain_step (sc_chained sc))
                        (default ∅ (heap m !! sc_chained sc))
                        (ext, (name, command))]> (heap m);
        next_ref := next_ref m;
        store := store m |}).
Proof.
  intros Hs Hf. unfold register_command, throwIfNameNotUnique, bind, invariant.
  rewrite !bool_decide_eq_false_2 by done.
  reflexivity.
Qed.

Lemma register_command_seen ext name command sc m :
  name ∈ sc_names sc ->
  register_command ext (name, command) sc m =
    (Throw (RemirrorError (Some DUPLICATE_COMMAND_NAMES) None), m).
Proof.
  intros Hs. unfold register_command, throwIfNameNotUnique, bind, invariant.
  rewrite bool_decide_eq_true_2 by done. reflexivity.
Qed.

Lemma register_command_forbidden ext name command sc m :
  name ∉ sc_names sc -> name ∈ forbiddenNames ->
  register_command ext (name, command) sc m =
    (Throw (RemirrorError (Some DUPLICATE_COMMAND_NAMES)
              (Some "The command name you chose is forbidden.")), m).
Proof.
  intros Hs Hf. unfold register_command, throwIfNameNotUnique, bind, invariant.
  rewrite (bool_decide_eq_false_2 (name ∈ sc_names sc)) by done.
  rewrite (bool_decide_eq_true_2 (name ∈ forbiddenNames)) by done.
  reflexivity.
Qed.

(** ** The loop over all contributions *)

Lemma for_of_forEachExtension extensions sc m :
  for_of forEachExtension extensions sc m =
  for_of register (contributions extensions) sc m.
Proof.
  revert sc m. induction extensions as [|ext exts IH]; intros sc m; [reflexivity|].
  simpl. rewrite for_of_app. unfold bind at 1 2.
  replace (for_of register
             match createCommands ext with
             | Some extensionCommands => map (pair ext) extensionCommands
             | None => []
             end sc m)
    with (forEachExtension ext sc m).
  - destruct (forEachExtension ext sc m) as [[sc'|e] m']; [apply IH|reflexivity].
  - unfold forEachExtension. destruct (createCommands ext) as [cs|]; [|reflexivity].
    rewrite for_of_map. reflexivity.
Qed.

Lemma register_all_accepted xs sc m obj :
  heap m !! sc_chained sc = Some obj ->
  acceptable (sc_names sc) (contribution_name <$> xs) = true ->
  exists names,
    for_of register xs sc m =
      (Normal {| sc_commands := sc_commands sc;
                 sc_names := names;
                 sc_chained := sc_chained sc;
                 sc_unchained :=
                   foldl (put contribution_name unchained_entry)
                         (sc_unchained sc) xs |},
       {| heap := <[sc_chained sc :=
                      foldl (put contribution_name (chain_step (sc_chained sc)))
                            obj xs]> (heap m);
          next_ref := next_ref m;
          store := store m |}).
Proof.
  revert sc m obj. induction xs as [|[ext [name command]] xs IH];
    intros sc m obj Hobj Hacc.
  - exists (sc_names sc). simpl. unfold ret.
    rewrite insert_id by done. by destruct sc, m.
  - rewrite fmap_cons in Hacc.
    change (contribution_name (ext, (name, command))) with name in Hacc.
    cbn [acceptable] in Hacc.
    rewrite !andb_true_iff, !bool_decide_eq_true in Hacc.
    destruct Hacc as [[Hs Hf] Hacc].
    pose proof (register_command_fresh ext name command sc m Hs Hf) as Hstep.
    cbn [for_of]. rewrite (bind_normal _ _ _ _ _ Hstep).
    rewrite Hobj in Hstep |- *. cbn [default] in Hstep |- *.
    match type of Hstep with
    | _ = (Normal ?sc1, ?m1) =>
        destruct (IH sc1 m1
                    (put contribution_name (chain_step (sc_chained sc)) obj
                         (ext, (name, command))))
          as [names Hrest]; [apply lookup_insert_eq | exact Hacc |]
    end.
    exists names. rewrite Hrest. cbn [sc_commands sc_chained sc_unchained
      heap next_ref store foldl]. by rewrite insert_insert_eq.
Qed.

Lemma register_all_rejected xs sc m :
  acceptable (sc_names sc) (contribution_name <$> xs) = false ->
  exists e m',
    for_of register xs sc m = (Throw e, m') /\
    DuplicateNameError e /\ store m' = store m.
Proof.
  revert sc m. induction xs as [|[ext [name command]] xs IH]; intros sc m Hacc.
  - discriminate.
  - rewrite fmap_cons in Hacc.
    change (contribution_name (ext, (name, command))) with name in Hacc.
    cbn [acceptable] in Hacc. cbn [for_of].
    destruct (decide (name ∈ sc_names sc)) as [Hs|Hs].
    { exists (RemirrorError (Some DUPLICATE_COMMAND_NAMES) None), m.
      rewrite (bind_throw _ _ _ _ _ (register_command_seen ext name command sc m Hs)).
      done. }
    destruct (decide (name ∈ forbiddenNames)) as [Hf|Hf].
    { eexists _, m.
      rewrite (bind_throw _ _ _ _ _
                 (register_command_forbidden ext name command sc m Hs Hf)).
      done. }
    rewrite !bool_decide_eq_true_2 in Hacc by done. cbn [andb] in Hacc.
    pose proof (register_command_fresh ext name command sc m Hs Hf) as Hstep.
    rewrite (bind_normal _ _ _ _ _ Hstep).
    match type of Hstep with
    | _ = (Normal ?sc1, ?m1) =>
        destruct (IH sc1 m1 Hacc) as (e & m' & Hrun & He & Hst)
    end.
    exists e, m'. by rewrite Hrun.
Qed.

(** ** The registry a build publishes *)

Lemma foldl_put_map_to_list {A B} (g : string * A -> B) (u : gmap string A) n :
  foldl (put fst g) ∅ (map_to_list u) !! n = (fun a => g (n, a)) <$> u !! n.
Proof.
  destruct (u !! n) as [a|] eqn:Hn; simpl.
  - apply (foldl_put_in fst g (map_to_list u) ∅ (n, a)).
    + apply NoDup_fst_map_to_list.
    + by apply elem_of_map_to_list.
  - rewrite foldl_put_notin; [apply lookup_empty|].
    intros Hin. apply list_elem_of_fmap in Hin.
    destruct Hin as ([k a] & -> & Hin). apply elem_of_map_to_list in Hin.
    simpl in Hn. congruence.
Qed.

Lemma viewReadyPhase_accepted extensions m :
  acceptable ∅ (contributed_names extensions) = true ->
  viewReadyPhase extensions m = (Normal tt, published extensions m).
Proof.
  intros Hacc. unfold viewReadyPhase.
  rewrite (bind_normal onView _ m _ _ eq_refl).
  match goal with
  | |- bind (for_of _ _ ?sc0) _ ?m0 = _ =>
      destruct (register_all_accepted (contributions extensions) sc0 m0 ∅)
        as [names Hloop]; [apply lookup_insert_eq | exact Hacc |];
      unfold bind at 1; rewrite for_of_forEachExtension, Hloop
  end.
  unfold afterExtensionLoop, set_member, setStoreKey_commands,
    setStoreKey_chain, bind, modify, published, registry_chain,
    registry_commands.
  cbn [sc_commands sc_chained sc_unchained heap next_ref store
       store_commands store_chain].
  rewrite lookup_insert_eq, !insert_insert_eq. reflexivity.
Qed.

Lemma viewReadyPhase_rejected extensions m :
  acceptable ∅ (contributed_names extensions) = false ->
  exists e m',
    viewReadyPhase extensions m = (Throw e, m') /\
    DuplicateNameError e /\ store m' = store m.
Proof.
  intros Hacc. unfold viewReadyPhase.
  rewrite (bind_normal onView _ m _ _ eq_refl).
  match goal with
  | |- context [bind (for_of _ _ ?sc0) _ ?m0] =>
      destruct (register_all_rejected (contributions extensions) sc0 m0 Hacc)
        as (e & m' & Hloop & He & Hst);
      exists e, m'; unfold bind at 1; rewrite for_of_forEachExtension, Hloop
  end.
  done.
Qed.

Lemma registry_commands_dom extensions :
  dom (registry_commands extensions) = list_to_set (contributed_names extensions).
Proof.
  apply set_eq. intros n. unfold registry_commands.
  rewrite elem_of_dom, foldl_put_map_to_list, fmap_is_Some, <- elem_of_dom.
  rewrite foldl_put_dom. unfold contributed_names. set_solver.
Qed.

Lemma registry_commands_lookup extensions x :
  NoDup (contributed_names extensions) -> x ∈ contributions extensions ->
  registry_commands extensions !! contribution_name x =
    Some {| cs_call :=
              unchainedFactory {| ufp_command := x.2.2;
                                  ufp_shouldDispatch := None |};
            cs_isEnabled :=
              unchainedFactory {| ufp_command := x.2.2;
                                  ufp_shouldDispatch := Some false |} |}.
Proof.
  intros Hnd Hx. unfold registry_commands.
  rewrite foldl_put_map_to_list.
  rewrite (foldl_put_in contribution_name unchained_entry _ ∅ x Hnd Hx).
  reflexivity.
Qed.

Lemma registry_chain_lookup r extensions x :
  NoDup (contributed_names extensions) -> x ∈ contributions extensions ->
  contribution_name x <> "run" ->
  registry_chain r extensions !! contribution_name x =
    Some (ChainMethod (chainedFactory {| cfp_command := x.2.2;
                                         cfp_chained := r |})).
Proof.
  intros Hnd Hx Hrun. unfold registry_chain.
  rewrite lookup_insert_ne by done.
  apply (foldl_put_in contribution_name (chain_step r) _ ∅ x Hnd Hx).
Qed.

Lemma registry_chain_run r extensions :
  registry_chain r extensions !! "run" = Some (RunMethod chained_run).
Proof. apply lookup_insert_eq. Qed.

(** A registered name is a contributed one. *)
Lemma registry_commands_contributed extensions n c :
  registry_commands extensions !! n = Some c ->
  exists x, x ∈ contributions extensions /\ contribution_name x = n.
Proof.
  intros Hn. assert (n ∈ dom (registry_commands extensions)) as Hdom
    by (apply elem_of_dom; eauto).
  rewrite registry_commands_dom, elem_of_list_to_set in Hdom.
  apply list_elem_of_fmap in Hdom. destruct Hdom as (x & -> & Hx). eauto.
Qed.

Lemma accepted_names extensions x :
  acceptable ∅ (contributed_names extensions) = true ->
  x ∈ contributions extensions ->
  NoDup (contributed_names extensions) /\ contribution_name x ∉ forbiddenNames.
Proof.
  intros Hacc Hx. apply acceptable_true in Hacc. destruct Hacc as [Hnd Hall].
  split; [done|]. rewrite Forall_forall in Hall.
  apply (Hall (contribution_name x)). unfold contributed_names.
  apply list_elem_of_fmap. eauto.
Qed.

Lemma elem_of_contributions extensions ext name command :
  (ext, (name, command)) ∈ contributions extensions <->
  ext ∈ extensions /\
  exists cs, createCommands ext = Some cs /\ (name, command) ∈ cs.
Proof.
  unfold contributions. rewrite list_elem_of_In, in_flat_map. split.
  - intros (e & He & Hin). apply list_elem_of_In in He.
    destruct (createCommands e) as [cs|] eqn:Hcs; [|by destruct Hin].
    apply in_map_iff in Hin. destruct Hin as (c & [= <- <-] & Hc).
    apply list_elem_of_In in Hc. eauto.
  - intros (He & cs & Hcs & Hc). exists ext. rewrite Hcs.
    split; [by apply list_elem_of_In|].
    apply in_map_iff. exists (name, command).
    split; [done|by apply list_elem_of_In].
Qed.

Lemma elem_of_contributed_names extensions n :
  n ∈ contributed_names extensions <->
  exists ext cs command,
    ext ∈ extensions /\ createCommands ext = Some cs /\ (n, command) ∈ cs.
Proof.
  unfold contributed_names. rewrite list_elem_of_fmap. split.
  - intros ([ext [name command]] & -> & Hx).
    apply elem_of_contributions in Hx. destruct Hx as (He & cs & Hcs & Hc).
    by exists ext, cs, command.
  - intros (ext & cs & command & He & Hcs & Hc).
    exists (ext, (n, command)). split; [done|].
    apply elem_of_contributions. eauto.
Qed.

Lemma not_forbidden n : n ∉ forbiddenNames <-> n <> "run" /\ n <> "chain".
Proof.
  unfold forbiddenNames. rewrite not_elem_of_union, !not_elem_of_singleton.
  done.
Qed.

Lemma acceptable_of_distinct extensions :
  NoDup (contributed_names extensions) ->
  Forall (fun n => n <> "run" /\ n <> "chain") (contributed_names extensions) ->
  acceptable ∅ (contributed_names extensions) = true.
Proof.
  intros Hnd Hall. apply acceptable_true. split; [done|].
  eapply Forall_impl; [exact Hall|]. intros n Hn.
  split; [apply not_elem_of_empty|by apply not_forbidden].
Qed.

(** A view-ready phase either publishes or throws, as the name guard decides. *)
Lemma viewReadyPhase_completes extensions m m' :
  viewReadyPhase extensions m = (Normal tt, m') ->
  acceptable ∅ (contributed_names extensions) = true /\
  m' = published extensions m.
Proof.
  intros Hrun.
  destruct (acceptable ∅ (contributed_names extensions)) eqn:Hacc.
  - rewrite viewReadyPhase_accepted in Hrun by done. by injection Hrun as <-.
  - destruct (viewReadyPhase_rejected extensions m Hacc) as (e & m1 & Hthrow & _).
    congruence.
Qed.

(** * The claims *)

(** C1. For every list of extensions whose contributed command names are
    pairwise distinct and none of which is [run] or [chain], the view-ready
    build completes without an error, and the mapping it publishes under the
    store key [commands] has an entry for exactly the names that some
    extension of the list contributes through its [createCommands]; an
    extension without [createCommands] contributes nothing. *)
Theorem C1_distinct_names_build_publishes_union
    (extensions : list Extension) (m : Manager) :
  NoDup (contributed_names extensions) ->
  Forall (fun n => n <> "run" /\ n <> "chain") (contributed_names extensions) ->
  exists m' commands,
    viewReadyPhase extensions m = (Normal tt, m') /\
    store_commands (store m') = Some commands /\
    forall n,
      is_Some (commands !! n) <->
      exists ext cs command,
        ext ∈ extensions /\ createCommands ext = Some cs /\ (n, command) ∈ cs.
Proof.
  intros Hnd Hall.
  exists (published extensions m), (registry_commands extensions).
  split; [|split].
  - apply viewReadyPhase_accepted. by apply acceptable_of_distinct.
  - reflexivity.
  - intros n. rewrite <- elem_of_dom, registry_commands_dom, elem_of_list_to_set.
    apply elem_of_contributed_names.
Qed.

Lemma C1_witness :
  NoDup (contributed_names sample_extensions) /\
  Forall (fun n => n <> "run" /\ n <> "chain")
         (contributed_names sample_extensions) /\
  exists m' commands,
    viewReadyPhase sample_extensions new_manager = (Normal tt, m') /\
    store_commands (store m') = Some commands /\
    forall n,
      is_Some (commands !! n) <->
      exists ext cs command,
        ext ∈ sample_extensions /\ createCommands ext = Some cs /\
        (n, command) ∈ cs.
Proof.
  assert (NoDup (contributed_names sample_extensions)) as Hnd
    by (apply (bool_decide_unpack _); vm_compute; exact I).
  assert (Forall (fun n => n <> "run" /\ n <> "chain")
                 (contributed_names sample_extensions)) as Hall
    by (apply (bool_decide_unpack _); vm_compute; exact I).
  split; [exact Hnd|]. split; [exact Hall|].
  exact (C1_distinct_names_build_publishes_union
           sample_extensions new_manager Hnd Hall).
Defined.

(** C2. If during one build some extension registers a name that was
    registered earlier in the same build, or the name [run] or [chain], the
    build fails with the duplicate-name error and publishes nothing: the
    manager store is left as it was, so neither [commands] nor [chain] is
    set, not even to a partial mapping. *)
Theorem C2_clash_aborts_build_without_publishing
    (extensions : list Extension) (m : Manager) (i : nat) (n : string) :
  contributed_names extensions !! i = Some n ->
  n ∈ take i (contributed_names extensions) \/ n = "run" \/ n = "chain" ->
  exists e m',
    viewReadyPhase extensions m = (Throw e, m') /\
    DuplicateNameError e /\
    store m' = store m.
Proof.
  intros Hi Hclash. apply viewReadyPhase_rejected.
  apply (acceptable_false_of_clash _ i n Hi).
  destruct Hclash as [Hdup|Hres]; [by left|right].
  unfold forbiddenNames. set_solver.
Qed.

Lemma C2_witness :
  contributed_names [boldExtension; textExtension; boldExtension] !! 2
    = Some "toggleBold" /\
  ("toggleBold"
     ∈ take 2 (contributed_names [boldExtension; textExtension; boldExtension])
   \/ "toggleBold" = "run" \/ "toggleBold" = "chain") /\
  exists e m',
    viewReadyPhase [boldExtension; textExtension; boldExtension] new_manager
      = (Throw e, m') /\
    DuplicateNameError e /\
    store m' = store new_manager.
Proof.
  assert ("toggleBold"
            ∈ take 2 (contributed_names
                        [boldExtension; textExtension; boldExtension])) as Hin
    by (apply (bool_decide_unpack _); vm_compute; exact I).
  split; [reflexivity|]. split; [left; exact Hin|].
  exact (C2_clash_aborts_build_without_publishing
           [boldExtension; textExtension; boldExtension] new_manager 2
           "toggleBold" eq_refl (or_introl Hin)).
Defined.

(** ** Registered commands *)

(** What a completed build has published for a contributed command. *)
Lemma registered extensions m ext cs name command :
  NoDup (contributed_names extensions) ->
  Forall (fun n => n <> "run" /\ n <> "chain") (contributed_names extensions) ->
  ext ∈ extensions -> createCommands ext = Some cs -> (name, command) ∈ cs ->
  viewReadyPhase extensions m = (Normal tt, published extensions m) /\
  registry_commands extensions !! name =
    Some {| cs_call :=
              unchainedFactory {| ufp_command := command;
                                  ufp_shouldDispatch := None |};
            cs_isEnabled :=
              unchainedFactory {| ufp_command := command;
                                  ufp_shouldDispatch := Some false |} |} /\
  registry_chain (next_ref m) extensions !! name =
    Some (ChainMethod (chainedFactory {| cfp_command := command;
                                         cfp_chained := next_ref m |})).
Proof.
  intros Hnd Hall He Hcs Hc.
  assert ((ext, (name, command)) ∈ contributions extensions) as Hx
    by (apply elem_of_contributions; eauto).
  split; [|split].
  - apply viewReadyPhase_accepted. by apply acceptable_of_distinct.
  - apply (registry_commands_lookup extensions _ Hnd Hx).
  - apply (registry_chain_lookup _ extensions _ Hnd Hx).
    rewrite Forall_forall in Hall. apply (Hall name).
    apply elem_of_contributed_names. eauto 6.
Qed.

(** C3, as amended.  For every registered command and every argument list,
    the [isEnabled] probe does exactly what the underlying command function
    does on a parameter that holds the current state of the view and no
    commit operation: the same completion and the same effects; the probe
    adds no commit and no focus of its own.  So no commit and no focus take
    place whenever the command function, given no commit operation, does
    not itself commit or focus through the view handle. *)
Theorem C3_isEnabled_runs_command_without_dispatch
    (extensions : list Extension) (m : Manager) (ext : Extension)
    (cs : list (string * ExtensionCommandFunction)) (name : string)
    (command : ExtensionCommandFunction) (args : list Value) (v : View) :
  NoDup (contributed_names extensions) ->
  Forall (fun n => n <> "run" /\ n <> "chain") (contributed_names extensions) ->
  ext ∈ extensions -> createCommands ext = Some cs -> (name, command) ∈ cs ->
  exists m' commands c,
    viewReadyPhase extensions m = (Normal tt, m') /\
    store_commands (store m') = Some commands /\
    commands !! name = Some c /\
    let underlying :=
      command args {| cp_state := state v; cp_dispatch := None |} v in
    cs_isEnabled c args v = underlying /\
    (dispatched underlying.2 = dispatched v ->
     focused underlying.2 = focused v ->
     dispatched (cs_isEnabled c args v).2 = dispatched v /\
     focused (cs_isEnabled c args v).2 = focused v).
Proof.
  intros Hnd Hall He Hcs Hc.
  destruct (registered extensions m ext cs name command Hnd Hall He Hcs Hc)
    as (Hrun & Hcmd & _).
  eexists _, _, _. split; [exact Hrun|]. split; [reflexivity|].
  split; [exact Hcmd|]. cbn zeta. split; [reflexivity|]. intros Hd Hf.
  split; [exact Hd|exact Hf].
Qed.

Lemma C3_witness :
  NoDup (contributed_names sample_extensions) /\
  Forall (fun n => n <> "run" /\ n <> "chain")
         (contributed_names sample_extensions) /\
  boldExtension ∈ sample_extensions /\
  createCommands boldExtension = Some [("toggleBold", toggleBold)] /\
  ("toggleBold", toggleBold) ∈ [("toggleBold", toggleBold)] /\
  exists m' commands c,
    viewReadyPhase sample_extensions new_manager = (Normal tt, m') /\
    store_commands (store m') = Some commands /\
    commands !! "toggleBold" = Some c /\
    let underlying :=
      toggleBold [] {| cp_state := state sample_view; cp_dispatch := None |}
                 sample_view in
    cs_isEnabled c [] sample_view = underlying /\
    (dispatched underlying.2 = dispatched sample_view ->
     focused underlying.2 = focused sample_view ->
     dispatched (cs_isEnabled c [] sample_view).2 = dispatched sample_view /\
     focused (cs_isEnabled c [] sample_view).2 = focused sample_view).
Proof.
  assert (NoDup (contributed_names sample_extensions)) as Hnd
    by (apply (bool_decide_unpack _); vm_compute; exact I).
  assert (Forall (fun n => n <> "run" /\ n <> "chain")
                 (contributed_names sample_extensions)) as Hall
    by (apply (bool_decide_unpack _); vm_compute; exact I).
  assert (boldExtension ∈ sample_extensions) as He
    by (apply list_elem_of_In; simpl; auto).
  assert (("toggleBold", toggleBold) ∈ [("toggleBold", toggleBold)]) as Hc
    by (apply list_elem_of_In; simpl; auto).
  split; [exact Hnd|]. split; [exact Hall|]. split; [exact He|].
  split; [reflexivity|]. split; [exact Hc|].
  exact (C3_isEnabled_runs_command_without_dispatch
           sample_extensions new_manager boldExtension _ "toggleBold"
           toggleBold [] sample_view Hnd Hall He eq_refl Hc).
Defined.

(** C3, as stated, fails: the probe of a registered command whose command
    function works on the view handle focuses the view and commits. *)
Lemma C3_counterexample :
  exists m' commands c v',
    viewReadyPhase [surfaceExtension] new_manager = (Normal tt, m') /\
    store_commands (store m') = Some commands /\
    commands !! "commitThroughView" = Some c /\
    cs_isEnabled c [] sample_view = (Normal true, v') /\
    focused sample_view = 0 /\ focused v' = 1 /\
    dispatched sample_view = [] /\ dispatched v' = [(0, [])].
Proof.
  eexists _, _, _, _.
  split; [vm_compute; reflexivity|].
  split; [reflexivity|].
  split; [vm_compute; reflexivity|].
  split; [vm_compute; reflexivity|].
  repeat split.
Qed.

(** C4, as amended.  For every registered command and every argument list,
    one direct invocation focuses the view once, before anything else, then
    runs the command function once on a parameter that holds the state the
    view then has and its real commit operation, and completes as the
    command function does, with its boolean.  Every commit is made by the command
    function: there is at most one, and no second focus, whenever the
    command function itself commits at most once and does not focus. *)
Theorem C4_direct_call_focuses_then_runs_command
    (extensions : list Extension) (m : Manager) (ext : Extension)
    (cs : list (string * ExtensionCommandFunction)) (name : string)
    (command : ExtensionCommandFunction) (args : list Value) (v : View) :
  NoDup (contributed_names extensions) ->
  Forall (fun n => n <> "run" /\ n <> "chain") (contributed_names extensions) ->
  ext ∈ extensions -> createCommands ext = Some cs -> (name, command) ∈ cs ->
  exists m' commands c,
    viewReadyPhase extensions m = (Normal tt, m') /\
    store_commands (store m') = Some commands /\
    commands !! name = Some c /\
    let underlying :=
      command args {| cp_state := state (focus_once v);
                      cp_dispatch := Some view_dispatch |}
              (focus_once v) in
    cs_call c args v = underlying /\
    focused (focus_once v) = S (focused v) /\
    dispatched (focus_once v) = dispatched v /\
    forall new,
      focused underlying.2 = focused (focus_once v) ->
      commits_between (focus_once v) underlying.2 new -> length new <= 1 ->
      focused (cs_call c args v).2 = S (focused v) /\
      commits_between v (cs_call c args v).2 new /\ length new <= 1.
Proof.
  intros Hnd Hall He Hcs Hc.
  destruct (registered extensions m ext cs name command Hnd Hall He Hcs Hc)
    as (Hrun & Hcmd & _).
  eexists _, _, _. split; [exact Hrun|]. split; [reflexivity|].
  split; [exact Hcmd|]. cbn zeta.
  split; [reflexivity|]. split; [reflexivity|]. split; [reflexivity|].
  intros new Hf Hd Hlen. split; [exact Hf|]. split; [exact Hd|exact Hlen].
Qed.

Lemma C4_witness :
  NoDup (contributed_names sample_extensions) /\
  Forall (fun n => n <> "run" /\ n <> "chain")
         (contributed_names sample_extensions) /\
  boldExtension ∈ sample_extensions /\
  createCommands boldExtension = Some [("toggleBold", toggleBold)] /\
  ("toggleBold", toggleBold) ∈ [("toggleBold", toggleBold)] /\
  exists m' commands c,
    viewReadyPhase sample_extensions new_manager = (Normal tt, m') /\
    store_commands (store m') = Some commands /\
    commands !! "toggleBold" = Some c /\
    let underlying :=
      toggleBold [] {| cp_state := state (focus_once sample_view);
                       cp_dispatch := Some view_dispatch |}
                 (focus_once sample_view) in
    cs_call c [] sample_view = underlying /\
    focused (focus_once sample_view) = S (focused sample_view) /\
    dispatched (focus_once sample_view) = dispatched sample_view /\
    forall new,
      focused underlying.2 = focused (focus_once sample_view) ->
      commits_between (focus_once sample_view) underlying.2 new ->
      length new <= 1 ->
      focused (cs_call c [] sample_view).2 = S (focused sample_view) /\
      commits_between sample_view (cs_call c [] sample_view).2 new /\
      length new <= 1.
Proof.
  assert (NoDup (contributed_names sample_extensions)) as Hnd
    by (apply (bool_decide_unpack _); vm_compute; exact I).
  assert (Forall (fun n => n <> "run" /\ n <> "chain")
                 (contributed_names sample_extensions)) as Hall
    by (apply (bool_decide_unpack _); vm_compute; exact I).
  assert (boldExtension ∈ sample_extensions) as He
    by (apply list_elem_of_In; simpl; auto).
  assert (("toggleBold", toggleBold) ∈ [("toggleBold", toggleBold)]) as Hc
    by (apply list_elem_of_In; simpl; auto).
  split; [exact Hnd|]. split; [exact Hall|]. split; [exact He|].
  split; [reflexivity|]. split; [exact Hc|].
  exact (C4_direct_call_focuses_then_runs_command
           sample_extensions new_manager boldExtension _ "toggleBold"
           toggleBold [] sample_view Hnd Hall He eq_refl Hc).
Defined.

(** C4, as stated, fails: one direct invocation of a registered command
    whose command function calls the commit operation twice causes two
    commits. *)
Lemma C4_counterexample :
  exists m' commands c v',
    viewReadyPhase [twiceExtension] new_manager = (Normal tt, m') /\
    store_commands (store m') = Some commands /\
    commands !! "commitTwice" = Some c /\
    cs_call c [] sample_view = (Normal true, v') /\
    dispatched sample_view = [] /\
    dispatched v' = [(0, []); (1, [])] /\
    focused v' = 1.
Proof.
  eexists _, _, _, _.
  split; [vm_compute; reflexivity|].
  split; [reflexivity|].
  split; [vm_compute; reflexivity|].
  split; [vm_compute; reflexivity|].
  repeat split.
Qed.

(** ** Chains *)

Lemma edits_of_add_edits t es v :
  edits_of t (add_edits t es v) = edits_of t v ++ es.
Proof.
  unfold edits_of, add_edits. cbn [transactions]. by rewrite lookup_insert_eq.
Qed.

(** What in-place steps leave of the view they started in. *)
Lemma in_place_steps_frame extensions calls edits v w :
  in_place_steps extensions calls edits v w ->
  state w = state v /\
  dispatched w = dispatched v /\
  edits_of (tr (state v)) w = edits_of (tr (state v)) v ++ concat edits.
Proof.
  induction 1 as [v|name args calls es edits v w w' ext cs command
                    _ _ _ (_ & Hst & Hd & Hed) _ IH].
  - by rewrite app_nil_r.
  - destruct IH as (Hst' & Hd' & Hed'). rewrite Hst in Hed'.
    split_and!; [by rewrite Hst'|by rewrite Hd'|].
    rewrite Hed', Hed. cbn [concat]. by rewrite app_assoc.
Qed.

Lemma chainedFactory_in_place command chained args es v w :
  mutates_in_place_at command args es v w ->
  chainedFactory {| cfp_command := command; cfp_chained := chained |} args v =
    (Normal chained, w).
Proof.
  intros ([b Hb] & _). unfold chainedFactory, bind, gets.
  cbn [cfp_command cfp_chained]. unfold chain_parameter in Hb. by rewrite Hb.
Qed.

Lemma call_steps_in_place extensions m calls edits v w :
  NoDup (contributed_names extensions) ->
  Forall (fun n => n <> "run" /\ n <> "chain") (contributed_names extensions) ->
  in_place_steps extensions calls edits v w ->
  call_steps (heap (published extensions m)) (next_ref m) calls v =
    (Normal (next_ref m, replicate (length calls) (next_ref m)), w).
Proof.
  intros Hnd Hall Hsteps.
  induction Hsteps as [v|name args calls es edits v w w' ext cs command
                         He Hcs Hc Hin _ IH]; [reflexivity|].
  cbn [call_steps length replicate].
  assert (call_step (heap (published extensions m)) (next_ref m) name args v =
            (Normal (next_ref m), w)) as Hstep.
  { destruct (registered extensions m ext cs name command Hnd Hall He Hcs Hc)
      as (_ & _ & Hmember).
    unfold call_step. cbn [heap published]. rewrite lookup_insert_eq.
    cbn [mbind option_bind]. rewrite Hmember.
    by eapply chainedFactory_in_place. }
  rewrite (bind_normal _ _ _ _ _ Hstep).
  rewrite (bind_normal _ _ _ _ _ IH). reflexivity.
Qed.

(** C5. For every chain expression [chain.a(argsA).b(argsB)....run()] over
    registered commands in which each step, at the view in which it is
    reached, mutates the pending change-set in place, every step returns
    the shared chain object, the one published under the store key
    [chain], whatever boolean its command function returned; and the real
    commit operation is called exactly once, by [run()], with the pending
    change-set holding the edits it had before, followed by the edits of
    all the steps in order.  The view [run()] leaves is the view the steps
    left, after that one commit. *)
Theorem C5_chain_commits_once_with_all_edits
    (extensions : list Extension) (m : Manager)
    (calls : list (string * list Value)) (edits : list (list Edit))
    (v w : View) :
  NoDup (contributed_names extensions) ->
  Forall (fun n => n <> "run" /\ n <> "chain") (contributed_names extensions) ->
  in_place_steps extensions calls edits v w ->
  exists m' chain v',
    viewReadyPhase extensions m = (Normal tt, m') /\
    store_chain (store m') = Some chain /\
    chain_expression (heap m') chain calls v =
      (Normal (replicate (length calls) chain), v') /\
    v' = commit (tr (state v)) w /\
    commits_between v v'
      [(tr (state v), edits_of (tr (state v)) v ++ concat edits)] /\
    focused v' = focused w.
Proof.
  intros Hnd Hall Hsteps.
  exists (published extensions m), (next_ref m), (commit (tr (state v)) w).
  pose proof (call_steps_in_place extensions m calls edits v w Hnd Hall Hsteps)
    as Hcalls.
  destruct (in_place_steps_frame _ _ _ _ _ Hsteps) as (Hst & Hd & Hed).
  split_and!.
  - apply viewReadyPhase_accepted. by apply acceptable_of_distinct.
  - reflexivity.
  - unfold chain_expression. rewrite (bind_normal _ _ _ _ _ Hcalls).
    unfold call_run. cbn [heap published fst snd].
    rewrite lookup_insert_eq. cbn [mbind option_bind].
    rewrite registry_chain_run.
    unfold chained_run, bind, gets, view_dispatch, modify, ret.
    by rewrite Hst.
  - reflexivity.
  - unfold commits_between. cbn [dispatched commit]. by rewrite Hd, Hed.
  - reflexivity.
Qed.

Lemma toggleBold_mutates args v :
  mutates_in_place_at toggleBold args ["toggleBold"] v
    (add_edits (tr (state v)) ["toggleBold"] v).
Proof.
  split_and!; [|reflexivity|reflexivity|apply edits_of_add_edits].
  exists true.
  unfold toggleBold, chain_parameter, chain_dispatch, invariant, bind, modify, ret.
  cbn [cp_dispatch cp_state state add_edits]. by rewrite Nat.eqb_refl.
Qed.

Lemma insertText_mutates text rest v :
  mutates_in_place_at insertText (VString text :: rest) [text] v
    (add_edits (tr (state v)) [text] v).
Proof.
  split_and!; [|reflexivity|reflexivity|apply edits_of_add_edits].
  exists true.
  unfold insertText, chain_parameter, chain_dispatch, invariant, bind, modify, ret.
  cbn [cp_dispatch cp_state state add_edits]. by rewrite Nat.eqb_refl.
Qed.

(** The builtin command joins a chain with any updater that edits the
    change-set it is given. *)
Lemma customTransaction_mutates es rest v :
  mutates_in_place_at customTransaction
    (VFunction (fun t => modify (add_edits t es)) :: rest) es v
    (add_edits (tr (state v)) es v).
Proof.
  split_and!; [|reflexivity|reflexivity|apply edits_of_add_edits].
  exists true.
  unfold customTransaction, chain_parameter, chain_dispatch, invariant, bind,
    modify, ret, call_value.
  cbn [nth cp_dispatch cp_state state add_edits]. by rewrite Nat.eqb_refl.
Qed.

(** A command that looks at the view before it edits: it adds its mark in
    the view where there is none, and nothing where there is one. *)
Lemma markOnce_marks :
  mutates_in_place_at markOnce [] ["mark"] bold_view marked_view.
Proof.
  split_and!; [exists true; vm_compute; reflexivity|reflexivity|reflexivity|].
  vm_compute. reflexivity.
Qed.

Lemma markOnce_marked :
  mutates_in_place_at markOnce [] [] marked_view marked_view.
Proof.
  split_and!; [exists false; vm_compute; reflexivity|reflexivity|reflexivity|].
  vm_compute. reflexivity.
Qed.

Lemma marking_steps_in_place :
  in_place_steps marking_extensions marking_calls marking_edits
                 sample_view marked_view.
Proof.
  apply (in_place_step _ _ _ _ _ _ _ bold_view _ boldExtension
           [("toggleBold", toggleBold)] toggleBold);
    [apply list_elem_of_In; simpl; auto|reflexivity
    |apply list_elem_of_In; simpl; auto|apply toggleBold_mutates|].
  apply (in_place_step _ _ _ _ _ _ _ marked_view _ markExtension
           [("markOnce", markOnce)] markOnce);
    [apply list_elem_of_In; simpl; auto|reflexivity
    |apply list_elem_of_In; simpl; auto|apply markOnce_marks|].
  apply (in_place_step _ _ _ _ _ _ _ marked_view _ markExtension
           [("markOnce", markOnce)] markOnce);
    [apply list_elem_of_In; simpl; auto|reflexivity
    |apply list_elem_of_In; simpl; auto|apply markOnce_marked|].
  apply in_place_done.
Qed.

(** The scenario of the specification, with the builtin command as a
    third step. *)
Lemma sample_steps_in_place :
  in_place_steps sample_extensions sample_calls sample_edits sample_view
    (add_edits 0 ["custom"] (add_edits 0 ["hi"] bold_view)).
Proof.
  apply (in_place_step _ _ _ _ _ _ _ bold_view _ boldExtension
           [("toggleBold", toggleBold)] toggleBold);
    [apply list_elem_of_In; simpl; auto|reflexivity
    |apply list_elem_of_In; simpl; auto|apply toggleBold_mutates|].
  apply (in_place_step _ _ _ _ _ _ _ (add_edits 0 ["hi"] bold_view) _
           textExtension [("insertText", insertText)] insertText);
    [apply list_elem_of_In; simpl; auto|reflexivity
    |apply list_elem_of_In; simpl; auto|apply insertText_mutates|].
  apply (in_place_step _ _ _ _ _ _ _
           (add_edits 0 ["custom"] (add_edits 0 ["hi"] bold_view)) _
           CommandsExtension [("customTransaction", customTransaction)]
           customTransaction);
    [apply list_elem_of_In; simpl; auto|reflexivity
    |apply list_elem_of_In; simpl; auto|apply customTransaction_mutates|].
  apply in_place_done.
Qed.

Lemma C5_witness :
  NoDup (contributed_names marking_extensions) /\
  Forall (fun n => n <> "run" /\ n <> "chain")
         (contributed_names marking_extensions) /\
  in_place_steps marking_extensions marking_calls marking_edits
                 sample_view marked_view /\
  exists m' chain v',
    viewReadyPhase marking_extensions new_manager = (Normal tt, m') /\
    store_chain (store m') = Some chain /\
    chain_expression (heap m') chain marking_calls sample_view =
      (Normal (replicate (length marking_calls) chain), v') /\
    v' = commit (tr (state sample_view)) marked_view /\
    commits_between sample_view v'
      [(tr (state sample_view),
        edits_of (tr (state sample_view)) sample_view ++ concat marking_edits)] /\
    focused v' = focused marked_view.
Proof.
  assert (NoDup (contributed_names marking_extensions)) as Hnd
    by (apply (bool_decide_unpack _); vm_compute; exact I).
  assert (Forall (fun n => n <> "run" /\ n <> "chain")
                 (contributed_names marking_extensions)) as Hall
    by (apply (bool_decide_unpack _); vm_compute; exact I).
  split; [exact Hnd|]. split; [exact Hall|].
  split; [exact marking_steps_in_place|].
  exact (C5_chain_commits_once_with_all_edits
           marking_extensions new_manager marking_calls marking_edits
           sample_view marked_view Hnd Hall marking_steps_in_place).
Defined.

(** ** The commit operation of a chain step *)

Lemma chain_dispatch_same st w :
  chain_dispatch st (tr st) w = (Normal tt, w).
Proof. unfold chain_dispatch, invariant. by rewrite Nat.eqb_refl. Qed.

Lemma chain_dispatch_other st t w :
  t <> tr st -> chain_dispatch st t w = (Throw ChainTransactionIdentityError, w).
Proof.
  intros Hne. unfold chain_dispatch, invariant.
  by rewrite (proj2 (Nat.eqb_neq _ _) Hne).
Qed.

(** C6. Inside a chain step, the commit operation handed to the wrapped
    command only checks identity.  Given the pending change-set it does
    nothing at all, in particular it does not commit, and the step goes on
    with the rest of the command function.  Given any other change-set it
    throws the chain identity error: the step fails with it, at the point
    the command function has reached, and the chain expression ends there,
    before any later step and before [run()]. *)
Theorem C6_chain_dispatch_only_checks_identity
    (extensions : list Extension) (m : Manager) (ext : Extension)
    (cs : list (string * ExtensionCommandFunction)) (name : string)
    (command : ExtensionCommandFunction) (args : list Value)
    (pick : CommandFunctionParameter -> Eff View Transaction)
    (after : CommandFunction) (rest : list (string * list Value))
    (v v1 : View) (t : Transaction) :
  NoDup (contributed_names extensions) ->
  Forall (fun n => n <> "run" /\ n <> "chain") (contributed_names extensions) ->
  ext ∈ extensions -> createCommands ext = Some cs -> (name, command) ∈ cs ->
  command args = commits_transaction pick after ->
  pick (chain_parameter v) v = (Normal t, v1) ->
  exists m' chain,
    viewReadyPhase extensions m = (Normal tt, m') /\
    store_chain (store m') = Some chain /\
    (forall w, chain_dispatch (state v) (tr (state v)) w = (Normal tt, w)) /\
    (forall t' w, t' <> tr (state v) ->
       chain_dispatch (state v) t' w = (Throw ChainTransactionIdentityError, w)) /\
    (t <> tr (state v) ->
       call_step (heap m') chain name args v =
         (Throw ChainTransactionIdentityError, v1) /\
       chain_expression (heap m') chain ((name, args) :: rest) v =
         (Throw ChainTransactionIdentityError, v1)) /\
    (t = tr (state v) ->
       call_step (heap m') chain name args v =
         (after (chain_parameter v) ;; ret chain) v1).
Proof.
  intros Hnd Hall He Hcs Hc Hshape Hpick.
  destruct (registered extensions m ext cs name command Hnd Hall He Hcs Hc)
    as (Hrun & _ & Hstep).
  exists (published extensions m), (next_ref m).
  split; [exact Hrun|]. split; [reflexivity|].
  split; [apply chain_dispatch_same|]. split; [apply chain_dispatch_other|].
  assert (call_step (heap (published extensions m)) (next_ref m) name args v =
            (_ <- (chain_dispatch (state v) t ;; after (chain_parameter v)) ;;
             ret (next_ref m)) v1) as Hcall.
  { unfold call_step. cbn [heap published]. rewrite lookup_insert_eq.
    cbn [mbind option_bind]. rewrite Hstep.
    unfold chainedFactory. cbn [cfp_command cfp_chained].
    rewrite Hshape. unfold commits_transaction, call_dispatch, bind, gets.
    fold (chain_parameter v). rewrite Hpick. reflexivity. }
  split.
  - intros Hne.
    assert (call_step (heap (published extensions m)) (next_ref m) name args v =
              (Throw ChainTransactionIdentityError, v1)) as Hfail.
    { rewrite Hcall. unfold bind. by rewrite chain_dispatch_other. }
    split; [exact Hfail|].
    unfold chain_expression. cbn [call_steps].
    rewrite (bind_throw _ _ _ _ _
               (bind_throw _ _ _ _ _ Hfail)). reflexivity.
  - intros ->. rewrite Hcall. unfold bind. by rewrite chain_dispatch_same.
Qed.

Lemma C6_witness :
  NoDup (contributed_names [cloneExtension]) /\
  Forall (fun n => n <> "run" /\ n <> "chain")
         (contributed_names [cloneExtension]) /\
  cloneExtension ∈ [cloneExtension] /\
  createCommands cloneExtension = Some [("commitClone", commitClone)] /\
  ("commitClone", commitClone) ∈ [("commitClone", commitClone)] /\
  commitClone [] =
    commits_transaction (fun _ => new_transaction) (fun _ => ret true) /\
  new_transaction sample_view = (Normal 1, (new_transaction sample_view).2) /\
  exists m' chain,
    viewReadyPhase [cloneExtension] new_manager = (Normal tt, m') /\
    store_chain (store m') = Some chain /\
    (forall w,
       chain_dispatch (state sample_view) (tr (state sample_view)) w
         = (Normal tt, w)) /\
    (forall t' w, t' <> tr (state sample_view) ->
       chain_dispatch (state sample_view) t' w
         = (Throw ChainTransactionIdentityError, w)) /\
    (1 <> tr (state sample_view) ->
       call_step (heap m') chain "commitClone" [] sample_view =
         (Throw ChainTransactionIdentityError, (new_transaction sample_view).2) /\
       chain_expression (heap m') chain [("commitClone", [])] sample_view =
         (Throw ChainTransactionIdentityError, (new_transaction sample_view).2)) /\
    (1 = tr (state sample_view) ->
       call_step (heap m') chain "commitClone" [] sample_view =
         ((fun _ => ret true) (chain_parameter sample_view) ;; ret chain)
           (new_transaction sample_view).2).
Proof.
  assert (NoDup (contributed_names [cloneExtension])) as Hnd
    by (apply (bool_decide_unpack _); vm_compute; exact I).
  assert (Forall (fun n => n <> "run" /\ n <> "chain")
                 (contributed_names [cloneExtension])) as Hall
    by (apply (bool_decide_unpack _); vm_compute; exact I).
  assert (cloneExtension ∈ [cloneExtension]) as He
    by (apply list_elem_of_In; simpl; auto).
  assert (("commitClone", commitClone) ∈ [("commitClone", commitClone)]) as Hc
    by (apply list_elem_of_In; simpl; auto).
  split; [exact Hnd|]. split; [exact Hall|]. split; [exact He|].
  split; [reflexivity|]. split; [exact Hc|]. split; [reflexivity|].
  split; [reflexivity|].
  exact (C6_chain_dispatch_only_checks_identity
           [cloneExtension] new_manager cloneExtension _ "commitClone"
           commitClone [] (fun _ => new_transaction) (fun _ => ret true) []
           sample_view _ 1 Hnd Hall He eq_refl Hc eq_refl eq_refl).
Defined.

(** C7. The accessors [onCreate] publishes are [getCommands] and
    [getChain].  Before any view-ready build has published, that is while
    the store is as in a new manager, which a failed build leaves it,
    [getCommands()] and [getChain()] fail with the outer-scope error.
    After a build has completed, whatever was published before it,
    [getCommands()] returns the commands mapping of that build, with the
    names its extensions contribute, and [getChain()] its chain object. *)
Theorem C7_accessors_before_and_after_a_build
    (extensions : list Extension) (m m' : Manager) :
  viewReadyPhase extensions m = (Normal tt, m') ->
  (forall s, es_getCommands (onCreate s) = Some getCommands /\
             es_getChain (onCreate s) = Some getChain) /\
  (forall m0, store m0 = store new_manager ->
     (exists e, getCommands m0 = (Throw e, m0) /\ OuterScopeError e) /\
     (exists e, getChain m0 = (Throw e, m0) /\ OuterScopeError e)) /\
  (forall failing m0 e m1,
     viewReadyPhase failing m0 = (Throw e, m1) -> store m1 = store m0) /\
  getCommands m' = (Normal (registry_commands extensions), m') /\
  (forall n, is_Some (registry_commands extensions !! n)
             <-> n ∈ contributed_names extensions) /\
  getChain m' = (Normal (next_ref m), m') /\
  heap m' !! next_ref m = Some (registry_chain (next_ref m) extensions).
Proof.
  intros Hrun. apply viewReadyPhase_completes in Hrun. destruct Hrun as [_ ->].
  split_and!.
  - done.
  - intros m0 Hst. unfold getCommands, getChain, bind, gets. rewrite Hst.
    split; eexists; (split; [reflexivity|reflexivity]).
  - intros failing m0 e m1 Hfail.
    destruct (acceptable ∅ (contributed_names failing)) eqn:Hacc.
    + rewrite viewReadyPhase_accepted in Hfail by done. discriminate.
    + destruct (viewReadyPhase_rejected failing m0 Hacc) as (e' & m2 & H2 & _ & Hst).
      congruence.
  - reflexivity.
  - intros n. by rewrite <- elem_of_dom, registry_commands_dom, elem_of_list_to_set.
  - reflexivity.
  - cbn. apply lookup_insert_eq.
Qed.

Lemma C7_witness :
  viewReadyPhase sample_extensions (published [boldExtension] new_manager) =
    (Normal tt,
     published sample_extensions (published [boldExtension] new_manager)) /\
  (forall s, es_getCommands (onCreate s) = Some getCommands /\
             es_getChain (onCreate s) = Some getChain) /\
  (forall m0, store m0 = store new_manager ->
     (exists e, getCommands m0 = (Throw e, m0) /\ OuterScopeError e) /\
     (exists e, getChain m0 = (Throw e, m0) /\ OuterScopeError e)) /\
  (forall failing m0 e m1,
     viewReadyPhase failing m0 = (Throw e, m1) -> store m1 = store m0) /\
  getCommands
    (published sample_extensions (published [boldExtension] new_manager)) =
    (Normal (registry_commands sample_extensions),
     published sample_extensions (published [boldExtension] new_manager)) /\
  (forall n, is_Some (registry_commands sample_extensions !! n)
             <-> n ∈ contributed_names sample_extensions) /\
  getChain
    (published sample_extensions (published [boldExtension] new_manager)) =
    (Normal (next_ref (published [boldExtension] new_manager)),
     published sample_extensions (published [boldExtension] new_manager)) /\
  heap (published sample_extensions (published [boldExtension] new_manager))
    !! next_ref (published [boldExtension] new_manager) =
    Some (registry_chain (next_ref (published [boldExtension] new_manager))
                         sample_extensions).
Proof.
  assert (viewReadyPhase sample_extensions (published [boldExtension] new_manager)
          = (Normal tt,
             published sample_extensions (published [boldExtension] new_manager)))
    as Hrun by (vm_compute; reflexivity).
  split; [exact Hrun|].
  exact (C7_accessors_before_and_after_a_build sample_extensions _ _ Hrun).
Defined.

(** ** The builtin command *)

(** C8. [customTransaction(updater)] never returns anything but [true];
    and given a commit operation it first calls the updater on the pending
    change-set and then commits that change-set: when both calls return, it
    returns [true] in the view the commit has left. *)
Theorem C8_customTransaction_updates_then_commits
    (updater : Transaction -> Eff View unit) (rest : list Value)
    (st : EditorState) (dispatch : DispatchFunction) (v v1 v2 : View) :
  updater (tr st) v = (Normal tt, v1) ->
  dispatch (tr st) v1 = (Normal tt, v2) ->
  customTransaction (VFunction updater :: rest)
    {| cp_state := st; cp_dispatch := Some dispatch |} v = (Normal true, v2) /\
  (forall p w b w',
     customTransaction (VFunction updater :: rest) p w = (Normal b, w') ->
     b = true).
Proof.
  intros Hup Hdis. split.
  - unfold customTransaction, call_value, bind, ret.
    cbn [nth cp_dispatch cp_state]. by rewrite Hup, Hdis.
  - intros p w b w'. unfold customTransaction, call_value, bind, ret.
    cbn [nth]. destruct (cp_dispatch p) as [d|]; [|congruence].
    destruct (updater (tr (cp_state p)) w) as [[[]|e] w1]; [|congruence].
    destruct (d (tr (cp_state p)) w1) as [[[]|e] w2]; congruence.
Qed.

Lemma C8_witness :
  modify (add_edits (tr (state sample_view)) ["custom"]) sample_view =
    (Normal tt, add_edits 0 ["custom"] sample_view) /\
  view_dispatch (tr (state sample_view)) (add_edits 0 ["custom"] sample_view) =
    (Normal tt, commit 0 (add_edits 0 ["custom"] sample_view)) /\
  customTransaction [VFunction (fun t => modify (add_edits t ["custom"]))]
    {| cp_state := state sample_view; cp_dispatch := Some view_dispatch |}
    sample_view
    = (Normal true, commit 0 (add_edits 0 ["custom"] sample_view)) /\
  (forall p w b w',
     customTransaction [VFunction (fun t => modify (add_edits t ["custom"]))]
       p w = (Normal b, w') ->
     b = true).
Proof.
  split; [reflexivity|]. split; [reflexivity|].
  exact (C8_customTransaction_updates_then_commits
           (fun t => modify (add_edits t ["custom"])) [] (state sample_view)
           view_dispatch sample_view _ _ eq_refl eq_refl).
Defined.

(** C9. On a parameter without a commit operation [customTransaction] does
    not call the updater: whatever it is given as arguments, it returns
    [true] and leaves the view, the pending change-set included, as it was.
    So the [isEnabled] probe of [customTransaction] is constantly [true],
    as built by [unchainedFactory] and as found in a published registry. *)
Theorem C9_customTransaction_probe_is_constantly_true
    (args : list Value) (st : EditorState) (v : View) :
  customTransaction args {| cp_state := st; cp_dispatch := None |} v =
    (Normal true, v) /\
  unchainedFactory {| ufp_command := customTransaction;
                      ufp_shouldDispatch := Some false |} args v =
    (Normal true, v) /\
  exists m' commands c,
    viewReadyPhase [CommandsExtension] new_manager = (Normal tt, m') /\
    store_commands (store m') = Some commands /\
    commands !! "customTransaction" = Some c /\
    cs_isEnabled c args v = (Normal true, v).
Proof.
  split; [reflexivity|]. split; [reflexivity|].
  eexists _, _, _. split; [vm_compute; reflexivity|].
  split; [reflexivity|]. split; [vm_compute; reflexivity|]. reflexivity.
Qed.

(** ** [run] *)

(** C10. [run()] reads the change-set to commit when it is called: in
    whatever view it is called, after any build, it commits the change-set
    pending in the state of the view at that moment, with the edits it then
    holds.  Called again, it commits the change-set that became pending
    after the first commit, not the same one again. *)
Theorem C10_run_commits_the_change_set_pending_at_the_call
    (extensions : list Extension) (m m' : Manager) (v : View) :
  viewReadyPhase extensions m = (Normal tt, m') ->
  exists chain,
    store_chain (store m') = Some chain /\
    call_run (heap m') chain v = (Normal tt, commit (tr (state v)) v) /\
    commits_between v (commit (tr (state v)) v)
      [(tr (state v), edits_of (tr (state v)) v)] /\
    (call_run (heap m') chain ;; call_run (heap m') chain) v =
      (Normal tt, commit (next_transaction v) (commit (tr (state v)) v)) /\
    commits_between v (commit (next_transaction v) (commit (tr (state v)) v))
      [(tr (state v), edits_of (tr (state v)) v); (next_transaction v, [])].
Proof.
  intros Hrun. apply viewReadyPhase_completes in Hrun. destruct Hrun as [_ ->].
  exists (next_ref m).
  assert (forall w, call_run (heap (published extensions m)) (next_ref m) w =
                      (Normal tt, commit (tr (state w)) w)) as Hcall.
  { intros w. unfold call_run. cbn [heap published].
    rewrite lookup_insert_eq. cbn [mbind option_bind].
    rewrite registry_chain_run. reflexivity. }
  split_and!.
  - reflexivity.
  - apply Hcall.
  - reflexivity.
  - unfold bind. rewrite !Hcall. reflexivity.
  - unfold commits_between, commit, edits_of. cbn [dispatched transactions].
    rewrite lookup_insert_eq. by rewrite <- app_assoc.
Qed.

Lemma C10_witness :
  viewReadyPhase sample_extensions new_manager =
    (Normal tt, published sample_extensions new_manager) /\
  exists chain,
    store_chain (store (published sample_extensions new_manager)) = Some chain /\
    call_run (heap (published sample_extensions new_manager)) chain sample_view
      = (Normal tt, commit (tr (state sample_view)) sample_view) /\
    commits_between sample_view (commit (tr (state sample_view)) sample_view)
      [(tr (state sample_view), edits_of (tr (state sample_view)) sample_view)] /\
    (call_run (heap (published sample_extensions new_manager)) chain ;;
     call_run (heap (published sample_extensions new_manager)) chain) sample_view
      = (Normal tt,
         commit (next_transaction sample_view)
                (commit (tr (state sample_view)) sample_view)) /\
    commits_between sample_view
      (commit (next_transaction sample_view)
              (commit (tr (state sample_view)) sample_view))
      [(tr (state sample_view), edits_of (tr (state sample_view)) sample_view);
       (next_transaction sample_view, [])].
Proof.
  assert (viewReadyPhase sample_extensions new_manager =
            (Normal tt, published sample_extensions new_manager)) as Hrun
    by (vm_compute; reflexivity).
  split; [exact Hrun|].
  exact (C10_run_commits_the_change_set_pending_at_the_call
           sample_extensions new_manager _ sample_view Hrun).
Defined.

(** * Further properties of the build *)

Section put_more.
Context {X B : Type} (key : X -> string) (val : X -> B).

(** A key holds what it held before the loop or what some element of the
    loop has put there. *)
Lemma foldl_put_cases xs (m0 : gmap string B) n :
  foldl (put key val) m0 xs !! n = m0 !! n \/
  exists x, x ∈ xs /\ key x = n /\
            foldl (put key val) m0 xs !! n = Some (val x).
Proof.
  revert m0. induction xs as [|y xs IH]; intros m0; [by left|].
  cbn [foldl]. destruct (IH (put key val m0 y)) as [Hsame|(x & Hx & Hk & Hl)].
  - rewrite Hsame. unfold put.
    destruct (decide (key y = n)) as [<-|Hne].
    + right. exists y. rewrite lookup_insert_eq. split_and!; [left|done|done].
    + left. by rewrite lookup_insert_ne.
  - right. exists x. split_and!; [by right|done|done].
Qed.

(** With distinct keys the order of the assignments does not matter. *)
Lemma foldl_put_permutation xs xs' (m0 : gmap string B) :
  NoDup (key <$> xs) -> xs ≡ₚ xs' ->
  foldl (put key val) m0 xs = foldl (put key val) m0 xs'.
Proof.
  intros Hnd Hperm.
  assert (NoDup (key <$> xs')) as Hnd' by (by rewrite <- Hperm).
  apply map_eq. intros n.
  destruct (decide (n ∈ key <$> xs)) as [Hin|Hout].
  - apply list_elem_of_fmap in Hin. destruct Hin as (x & -> & Hx).
    rewrite (foldl_put_in key val xs m0 x Hnd Hx).
    rewrite (foldl_put_in key val xs' m0 x Hnd'); [done|by rewrite <- Hperm].
  - rewrite !foldl_put_notin; [done| |done]. by rewrite <- Hperm.
Qed.
End put_more.

Lemma contributions_permutation extensions extensions' :
  extensions ≡ₚ extensions' ->
  contributions extensions ≡ₚ contributions extensions'.
Proof. intros Hperm. unfold contributions. by rewrite Hperm. Qed.

Lemma distinct_of_acceptable extensions :
  acceptable ∅ (contributed_names extensions) = true ->
  NoDup (contributed_names extensions) /\
  Forall (fun n => n <> "run" /\ n <> "chain") (contributed_names extensions).
Proof.
  intros Hacc. apply acceptable_true in Hacc. destruct Hacc as [Hnd Hall].
  split; [done|]. eapply Forall_impl; [exact Hall|].
  intros n [_ Hn]. by apply not_forbidden.
Qed.

(** X1. A view-ready build completes only when the command names the
    extensions contribute are pairwise distinct and none of them is [run]
    or [chain]: a registry is never published from a build in which a name
    was contributed twice or a reserved name was asked for. *)
Theorem X1_completed_build_has_distinct_names
    (extensions : list Extension) (m m' : Manager) :
  viewReadyPhase extensions m = (Normal tt, m') ->
  NoDup (contributed_names extensions) /\
  Forall (fun n => n <> "run" /\ n <> "chain") (contributed_names extensions).
Proof.
  intros Hrun. apply viewReadyPhase_completes in Hrun.
  apply distinct_of_acceptable. apply Hrun.
Qed.

Lemma X1_witness :
  viewReadyPhase sample_extensions new_manager =
    (Normal tt, published sample_extensions new_manager) /\
  NoDup (contributed_names sample_extensions) /\
  Forall (fun n => n <> "run" /\ n <> "chain")
         (contributed_names sample_extensions).
Proof.
  assert (viewReadyPhase sample_extensions new_manager =
            (Normal tt, published sample_extensions new_manager)) as Hrun
    by (vm_compute; reflexivity).
  split; [exact Hrun|].
  exact (X1_completed_build_has_distinct_names _ _ _ Hrun).
Defined.

(** X2. The order in which the host visits the extensions does not change
    what a name is bound to: when a build completes, visiting the same
    extensions in any other order completes too, and under every name the
    commands mapping holds the same command with the same probe and the
    chain object the same member.  The order in which the keys of the two
    objects are enumerated is not part of the statement. *)
Theorem X2_names_are_bound_alike_in_any_order
    (extensions extensions' : list Extension) (m m' : Manager) :
  extensions ≡ₚ extensions' ->
  viewReadyPhase extensions m = (Normal tt, m') ->
  exists m'' commands commands' chain object object',
    viewReadyPhase extensions' m = (Normal tt, m'') /\
    store_commands (store m') = Some commands /\
    store_commands (store m'') = Some commands' /\
    store_chain (store m') = Some chain /\
    store_chain (store m'') = Some chain /\
    heap m' !! chain = Some object /\
    heap m'' !! chain = Some object' /\
    forall n, commands !! n = commands' !! n /\ object !! n = object' !! n.
Proof.
  intros Hperm Hrun. apply viewReadyPhase_completes in Hrun.
  destruct Hrun as [Hacc ->]. apply distinct_of_acceptable in Hacc.
  destruct Hacc as [Hnd Hall].
  pose proof (contributions_permutation _ _ Hperm) as Hc.
  assert (contributed_names extensions ≡ₚ contributed_names extensions') as Hn
    by (unfold contributed_names; by rewrite Hc).
  exists (published extensions' m), (registry_commands extensions),
    (registry_commands extensions'), (next_ref m),
    (registry_chain (next_ref m) extensions),
    (registry_chain (next_ref m) extensions').
  split_and!; try reflexivity.
  - apply viewReadyPhase_accepted. apply acceptable_of_distinct; by rewrite <- Hn.
  - apply lookup_insert_eq.
  - apply lookup_insert_eq.
  - intros n. unfold registry_commands, registry_chain.
    rewrite <- (foldl_put_permutation contribution_name unchained_entry
                  _ _ ∅ Hnd Hc).
    by rewrite <- (foldl_put_permutation contribution_name
                     (chain_step (next_ref m)) _ _ ∅ Hnd Hc).
Qed.

Lemma X2_witness :
  [CommandsExtension; boldExtension; textExtension]
    ≡ₚ [textExtension; CommandsExtension; boldExtension] /\
  viewReadyPhase [CommandsExtension; boldExtension; textExtension] new_manager
    = (Normal tt,
       published [CommandsExtension; boldExtension; textExtension] new_manager) /\
  exists m'' commands commands' chain object object',
    viewReadyPhase [textExtension; CommandsExtension; boldExtension] new_manager
      = (Normal tt, m'') /\
    store_commands
      (store (published [CommandsExtension; boldExtension; textExtension]
                        new_manager)) = Some commands /\
    store_commands (store m'') = Some commands' /\
    store_chain
      (store (published [CommandsExtension; boldExtension; textExtension]
                        new_manager)) = Some chain /\
    store_chain (store m'') = Some chain /\
    heap (published [CommandsExtension; boldExtension; textExtension]
                    new_manager) !! chain = Some object /\
    heap m'' !! chain = Some object' /\
    forall n, commands !! n = commands' !! n /\ object !! n = object' !! n.
Proof.
  assert ([CommandsExtension; boldExtension; textExtension]
            ≡ₚ [textExtension; CommandsExtension; boldExtension]) as Hperm.
  { change ([CommandsExtension; boldExtension] ++ [textExtension]
              ≡ₚ [textExtension] ++ [CommandsExtension; boldExtension]).
    apply Permutation_app_comm. }
  assert (viewReadyPhase [CommandsExtension; boldExtension; textExtension]
            new_manager
          = (Normal tt,
             published [CommandsExtension; boldExtension; textExtension]
                       new_manager)) as Hrun by (vm_compute; reflexivity).
  split; [exact Hperm|]. split; [exact Hrun|].
  exact (X2_names_are_bound_alike_in_any_order _ _ _ _ Hperm Hrun).
Defined.

(** X3. The chain object a completed build publishes has a member for every
    registered command name and the member [run], and nothing else; the
    commands mapping has the same names without [run]. *)
Theorem X3_chain_has_the_command_names_and_run
    (extensions : list Extension) (m m' : Manager) :
  viewReadyPhase extensions m = (Normal tt, m') ->
  exists commands chain object,
    store_commands (store m') = Some commands /\
    store_chain (store m') = Some chain /\
    heap m' !! chain = Some object /\
    (forall n, is_Some (object !! n) <->
               n = "run" \/ n ∈ contributed_names extensions) /\
    (forall n, is_Some (commands !! n) <->
               is_Some (object !! n) /\ n <> "run").
Proof.
  intros Hrun. apply viewReadyPhase_completes in Hrun.
  destruct Hrun as [Hacc ->]. apply distinct_of_acceptable in Hacc.
  destruct Hacc as [_ Hall].
  assert (forall n, is_Some (registry_chain (next_ref m) extensions !! n) <->
                    n = "run" \/ n ∈ contributed_names extensions) as Hchain.
  { intros n. rewrite <- elem_of_dom. unfold registry_chain.
    rewrite dom_insert_L, foldl_put_dom, dom_empty_L.
    unfold contributed_names. set_solver. }
  exists (registry_commands extensions), (next_ref m),
    (registry_chain (next_ref m) extensions).
  split_and!; [done|done|apply lookup_insert_eq|exact Hchain|].
  intros n. rewrite Hchain, <- elem_of_dom, registry_commands_dom,
    elem_of_list_to_set.
  split.
  - intros Hn. split; [by right|].
    rewrite Forall_forall in Hall. by apply (Hall n).
  - intros [[->|Hn] Hne]; done.
Qed.

Lemma X3_witness :
  viewReadyPhase sample_extensions new_manager =
    (Normal tt, published sample_extensions new_manager) /\
  exists commands chain object,
    store_commands (store (published sample_extensions new_manager))
      = Some commands /\
    store_chain (store (published sample_extensions new_manager)) = Some chain /\
    heap (published sample_extensions new_manager) !! chain = Some object /\
    (forall n, is_Some (object !! n) <->
               n = "run" \/ n ∈ contributed_names sample_extensions) /\
    (forall n, is_Some (commands !! n) <->
               is_Some (object !! n) /\ n <> "run").
Proof.
  assert (viewReadyPhase sample_extensions new_manager =
            (Normal tt, published sample_extensions new_manager)) as Hrun
    by (vm_compute; reflexivity).
  split; [exact Hrun|].
  exact (X3_chain_has_the_command_names_and_run _ _ _ Hrun).
Defined.

(** X4. When no extension contributes a command, the build still publishes:
    [getCommands()] then returns an empty mapping instead of failing, and
    the chain object has the single member [run]. *)
Theorem X4_build_without_commands_publishes_empty_registry
    (extensions : list Extension) (m : Manager) :
  Forall (fun ext => createCommands ext = None \/ createCommands ext = Some [])
         extensions ->
  exists m',
    viewReadyPhase extensions m = (Normal tt, m') /\
    getCommands m' = (Normal ∅, m') /\
    getChain m' = (Normal (next_ref m), m') /\
    heap m' !! next_ref m = Some {[ "run" := RunMethod chained_run ]}.
Proof.
  intros Hnone.
  assert (contributions extensions = []) as Hc.
  { induction Hnone as [|ext exts [Hx|Hx] _ IH]; [done| |];
      cbn [contributions flat_map]; rewrite Hx; exact IH. }
  exists (published extensions m).
  assert (published extensions m =
            {| heap := <[next_ref m := {[ "run" := RunMethod chained_run ]}]>
                         (heap m);
               next_ref := S (next_ref m);
               store := {| store_commands := Some ∅;
                           store_chain := Some (next_ref m) |} |}) as ->.
  { unfold published, registry_commands, registry_chain. rewrite Hc.
    cbn [foldl]. rewrite map_to_list_empty. reflexivity. }
  split_and!; [|reflexivity|reflexivity|apply lookup_insert_eq].
  rewrite viewReadyPhase_accepted.
  - unfold published, registry_commands, registry_chain. rewrite Hc.
    cbn [foldl]. rewrite map_to_list_empty. reflexivity.
  - unfold contributed_names. by rewrite Hc.
Qed.

Lemma X4_witness :
  Forall (fun ext => createCommands ext = None \/ createCommands ext = Some [])
         [plainExtension; plainExtension] /\
  exists m',
    viewReadyPhase [plainExtension; plainExtension] new_manager
      = (Normal tt, m') /\
    getCommands m' = (Normal ∅, m') /\
    getChain m' = (Normal (next_ref new_manager), m') /\
    heap m' !! next_ref new_manager
      = Some {[ "run" := RunMethod chained_run ]}.
Proof.
  assert (Forall (fun ext => createCommands ext = None \/
                             createCommands ext = Some [])
                 [plainExtension; plainExtension]) as Hnone
    by (repeat constructor).
  split; [exact Hnone|].
  exact (X4_build_without_commands_publishes_empty_registry _ new_manager Hnone).
Defined.

(** ** What a build leaves alone *)

Lemma register_frame x sc m r0 :
  r0 <> sc_chained sc ->
  heap (register x sc m).2 !! r0 = heap m !! r0 /\
  next_ref (register x sc m).2 = next_ref m /\
  match (register x sc m).1 with
  | Normal sc' => sc_chained sc' = sc_chained sc
  | Throw _ => True
  end.
Proof.
  intros Hne. destruct x as [ext [name command]]. unfold register. cbn [fst snd].
  destruct (decide (name ∈ sc_names sc)) as [Hs|Hs].
  { by rewrite register_command_seen. }
  destruct (decide (name ∈ forbiddenNames)) as [Hf|Hf].
  { by rewrite register_command_forbidden. }
  rewrite register_command_fresh by done. cbn [fst snd heap next_ref sc_chained].
  by rewrite lookup_insert_ne.
Qed.

Lemma for_of_register_frame xs sc m r0 :
  r0 <> sc_chained sc ->
  heap (for_of register xs sc m).2 !! r0 = heap m !! r0 /\
  next_ref (for_of register xs sc m).2 = next_ref m.
Proof.
  revert sc m. induction xs as [|x xs IH]; intros sc m Hne; [done|].
  cbn [for_of]. unfold bind.
  destruct (register_frame x sc m r0 Hne) as (Hh & Hn & Hc).
  destruct (register x sc m) as [[sc1|e] m1]; cbn [fst snd] in *; [|done].
  destruct (IH sc1 m1) as [Hh' Hn']; [by rewrite Hc|].
  by rewrite Hh', Hn', Hh, Hn.
Qed.

Lemma viewReadyPhase_frame extensions m r0 :
  r0 <> next_ref m ->
  heap (viewReadyPhase extensions m).2 !! r0 = heap m !! r0 /\
  next_ref (viewReadyPhase extensions m).2 = S (next_ref m).
Proof.
  intros Hne.
  destruct (acceptable ∅ (contributed_names extensions)) eqn:Hacc.
  - rewrite viewReadyPhase_accepted by done. cbn. by rewrite lookup_insert_ne.
  - pose (sc0 := mkScope ∅ ∅ (next_ref m) ∅).
    pose (m0 := mkManager (<[next_ref m := ∅]> (heap m)) (S (next_ref m))
                          (store m)).
    destruct (register_all_rejected (contributions extensions) sc0 m0 Hacc)
      as (e & m' & Hloop & _ & _).
    destruct (for_of_register_frame (contributions extensions) sc0 m0 r0 Hne)
      as [Hh Hn].
    rewrite Hloop in Hh, Hn. cbn [fst snd heap next_ref m0] in Hh, Hn.
    assert (viewReadyPhase extensions m = (Throw e, m')) as ->.
    { unfold viewReadyPhase. rewrite (bind_normal onView _ m _ _ eq_refl).
      unfold bind at 1. rewrite for_of_forEachExtension.
      fold sc0 m0. by rewrite Hloop. }
    cbn [fst snd]. rewrite Hh, Hn. unfold m0. cbn [heap next_ref].
    by rewrite lookup_insert_ne.
Qed.

(** X5. Every build works on a chain object of its own.  After a completed
    build, a further build, whether it completes or fails, leaves the chain
    object published before as it was, with its steps and its [run]; when
    the further build completes, the chain it publishes is another object. *)
Theorem X5_rebuild_leaves_the_earlier_chain_object
    (first further : list Extension) (m0 m1 : Manager) :
  viewReadyPhase first m0 = (Normal tt, m1) ->
  exists chain,
    store_chain (store m1) = Some chain /\
    heap m1 !! chain = Some (registry_chain chain first) /\
    heap (viewReadyPhase further m1).2 !! chain
      = Some (registry_chain chain first) /\
    forall m2,
      viewReadyPhase further m1 = (Normal tt, m2) ->
      exists chain', store_chain (store m2) = Some chain' /\ chain' <> chain.
Proof.
  intros Hrun. apply viewReadyPhase_completes in Hrun. destruct Hrun as [_ ->].
  exists (next_ref m0).
  assert (heap (published first m0) !! next_ref m0 =
            Some (registry_chain (next_ref m0) first)) as Hold
    by apply lookup_insert_eq.
  split_and!; [done|exact Hold| |].
  - destruct (viewReadyPhase_frame further (published first m0) (next_ref m0))
      as [Hh _]; [cbn; lia|]. by rewrite Hh.
  - intros m2 Hrun2. apply viewReadyPhase_completes in Hrun2.
    destruct Hrun2 as [_ ->]. exists (S (next_ref m0)). split; [done|lia].
Qed.

Lemma X5_witness :
  viewReadyPhase [boldExtension] new_manager =
    (Normal tt, published [boldExtension] new_manager) /\
  exists chain,
    store_chain (store (published [boldExtension] new_manager)) = Some chain /\
    heap (published [boldExtension] new_manager) !! chain
      = Some (registry_chain chain [boldExtension]) /\
    heap (viewReadyPhase [boldExtension; boldExtension]
            (published [boldExtension] new_manager)).2 !! chain
      = Some (registry_chain chain [boldExtension]) /\
    forall m2,
      viewReadyPhase [boldExtension; boldExtension]
        (published [boldExtension] new_manager) = (Normal tt, m2) ->
      exists chain', store_chain (store m2) = Some chain' /\ chain' <> chain.
Proof.
  assert (viewReadyPhase [boldExtension] new_manager =
            (Normal tt, published [boldExtension] new_manager)) as Hrun
    by (vm_compute; reflexivity).
  split; [exact Hrun|].
  exact (X5_rebuild_leaves_the_earlier_chain_object
           [boldExtension] [boldExtension; boldExtension] new_manager _ Hrun).
Defined.

(** ** The reserved names *)

Lemma for_of_register_names xs sc m sc' m' :
  for_of register xs sc m = (Normal sc', m') ->
  sc_names sc' = list_to_set (contribution_name <$> xs) ∪ sc_names sc.
Proof.
  revert sc m. induction xs as [|[ext [name command]] xs IH]; intros sc m Hrun.
  - injection Hrun as <- <-. cbn. set_solver.
  - cbn [for_of] in Hrun. unfold bind, register in Hrun. cbn [fst snd] in Hrun.
    destruct (decide (name ∈ sc_names sc)) as [Hs|Hs].
    { by rewrite register_command_seen in Hrun. }
    destruct (decide (name ∈ forbiddenNames)) as [Hf|Hf].
    { by rewrite register_command_forbidden in Hrun. }
    rewrite register_command_fresh in Hrun by done.
    apply IH in Hrun. rewrite Hrun. cbn [sc_names]. rewrite fmap_cons.
    change (contribution_name (ext, (name, command))) with name.
    cbn [list_to_set]. set_solver.
Qed.

(** X6. When the first name the guard rejects is [run] or [chain], met
    after names that are pairwise distinct and not reserved, the build fails
    with the code of duplicate command names and the message that the
    chosen name is forbidden, and the store is left as it was. *)
Theorem X6_reserved_name_is_reported_as_forbidden
    (extensions : list Extension) (m : Manager)
    (before after : list string) (n : string) :
  contributed_names extensions = before ++ n :: after ->
  NoDup before ->
  Forall (fun k => k <> "run" /\ k <> "chain") before ->
  n = "run" \/ n = "chain" ->
  exists m',
    viewReadyPhase extensions m =
      (Throw (RemirrorError (Some DUPLICATE_COMMAND_NAMES)
                (Some "The command name you chose is forbidden.")), m') /\
    store m' = store m.
Proof.
  intros Hnames Hnd Hall Hres.
  unfold contributed_names in Hnames.
  apply fmap_app_inv in Hnames. destruct Hnames as (l1 & l2 & -> & Hl2 & Hc).
  symmetry in Hl2. apply fmap_cons_inv in Hl2.
  destruct Hl2 as ([ext [name command]] & l2' & -> & _ & ->).
  change (contribution_name (ext, (name, command))) with name in Hres.
  assert (name ∈ forbiddenNames) as Hf
    by (unfold forbiddenNames; set_solver).
  assert (name ∉ contribution_name <$> l1) as Hnew.
  { intros Hin. rewrite Forall_forall in Hall.
    apply not_forbidden in Hf; [done|]. by apply Hall. }
  unfold viewReadyPhase. rewrite (bind_normal onView _ m _ _ eq_refl).
  unfold bind at 1. rewrite for_of_forEachExtension, Hc, for_of_app.
  match goal with
  | |- context [bind (for_of register l1 ?sc0) _ ?m0] =>
      destruct (register_all_accepted l1 sc0 m0 ∅) as [names Hloop];
        [apply lookup_insert_eq | |]
  end.
  { apply acceptable_true. split; [done|].
    eapply Forall_impl; [exact Hall|]. intros k Hk.
    split; [apply not_elem_of_empty|by apply not_forbidden]. }
  pose proof (for_of_register_names _ _ _ _ _ Hloop) as Hn.
  cbn [sc_names] in Hn.
  rewrite (bind_normal _ _ _ _ _ Hloop). cbn [for_of].
  erewrite bind_throw.
  2:{ apply register_command_forbidden; [|exact Hf].
      cbn [sc_names]. rewrite Hn. set_solver. }
  eexists. split; [reflexivity|reflexivity].
Qed.

Lemma X6_witness :
  contributed_names [boldExtension; runnerExtension]
    = ["toggleBold"] ++ "run" :: [] /\
  NoDup ["toggleBold"] /\
  Forall (fun k => k <> "run" /\ k <> "chain") ["toggleBold"] /\
  ("run" = "run" \/ "run" = "chain") /\
  exists m',
    viewReadyPhase [boldExtension; runnerExtension] new_manager =
      (Throw (RemirrorError (Some DUPLICATE_COMMAND_NAMES)
                (Some "The command name you chose is forbidden.")), m') /\
    store m' = store new_manager.
Proof.
  assert (NoDup ["toggleBold"]) as Hnd
    by (apply (bool_decide_unpack _); vm_compute; exact I).
  assert (Forall (fun k => k <> "run" /\ k <> "chain") ["toggleBold"]) as Hall
    by (apply (bool_decide_unpack _); vm_compute; exact I).
  split; [reflexivity|]. split; [exact Hnd|]. split; [exact Hall|].
  split; [left; reflexivity|].
  exact (X6_reserved_name_is_reported_as_forbidden
           [boldExtension; runnerExtension] new_manager ["toggleBold"] []
           "run" eq_refl Hnd Hall (or_introl eq_refl)).
Defined.

(** * Further properties of chains *)

Lemma registry_chain_cases r extensions name :
  name <> "run" ->
  registry_chain r extensions !! name = None \/
  exists command,
    registry_chain r extensions !! name =
      Some (ChainMethod (chainedFactory {| cfp_command := command;
                                           cfp_chained := r |})).
Proof.
  intros Hne. unfold registry_chain. rewrite lookup_insert_ne by done.
  destruct (foldl_put_cases contribution_name (chain_step r)
              (contributions extensions) ∅ name) as [->|(x & _ & _ & ->)].
  - left. apply lookup_empty.
  - right. by exists x.2.2.
Qed.

Lemma chainedFactory_returns command chained args v r v' :
  chainedFactory {| cfp_command := command; cfp_chained := chained |} args v
    = (Normal r, v') ->
  r = chained.
Proof.
  unfold chainedFactory, bind, gets, ret. cbn [cfp_command cfp_chained].
  destruct (command args _ v) as [[b|e] v1]; congruence.
Qed.

Lemma published_step_returns extensions m name args v r v' :
  name <> "run" ->
  call_step (heap (published extensions m)) (next_ref m) name args v
    = (Normal r, v') ->
  r = next_ref m.
Proof.
  intros Hne. unfold call_step. cbn [heap published]. rewrite lookup_insert_eq.
  cbn [mbind option_bind].
  destruct (registry_chain_cases (next_ref m) extensions name Hne)
    as [->|[command ->]]; [discriminate|].
  apply chainedFactory_returns.
Qed.

Lemma call_steps_app h chain xs ys v :
  call_steps h chain (xs ++ ys) v =
    (r1 <- call_steps h chain xs ;;
     r2 <- call_steps h r1.1 ys ;;
     ret (r2.1, r1.2 ++ r2.2)) v.
Proof.
  revert chain v. induction xs as [|[name args] xs IH]; intros chain v.
  - cbn [app call_steps]. unfold bind, ret. cbn [fst snd app].
    by destruct (call_steps h chain ys v) as [[[r l]|e] v'].
  - cbn [app call_steps]. unfold bind.
    destruct (call_step h chain name args v) as [[c1|e] v1]; [|done].
    rewrite IH. unfold bind, ret.
    destruct (call_steps h c1 xs v1) as [[[r l]|e] v2]; [|done].
    cbn [fst snd].
    by destruct (call_steps h r ys v2) as [[[r' l']|e] v3].
Qed.

Lemma call_steps_returns h chain calls v r l v' :
  (forall name args w r' w',
     name <> "run" ->
     call_step h chain name args w = (Normal r', w') -> r' = chain) ->
  Forall (fun call : string * list Value => call.1 <> "run") calls ->
  call_steps h chain calls v = (Normal (r, l), v') ->
  r = chain /\ l = replicate (length calls) chain.
Proof.
  intros Hstep Hnames. revert v r l v'.
  induction Hnames as [|[name args] calls Hname _ IH]; intros v r l v' Hrun.
  - cbn in Hrun. unfold ret in Hrun. by injection Hrun as <- <- <-.
  - cbn [call_steps] in Hrun. unfold bind, ret in Hrun.
    destruct (call_step h chain name args v) as [[c1|e] v1] eqn:H1; [|done].
    apply Hstep in H1; [|exact Hname]. subst c1.
    destruct (call_steps h chain calls v1) as [[[r2 l2]|e] v2] eqn:H2; [|done].
    apply IH in H2. destruct H2 as [-> ->].
    cbn [fst snd] in Hrun. by injection Hrun as <- <- <-.
Qed.

(** X7. Whatever its command function does and whatever boolean it returns,
    the chain step of a registered command that completes returns the chain
    object itself.  So a chain expression over registered commands can be
    cut anywhere: calling the first steps on the chain in one expression
    and the remaining steps with [run()] in a later one does what the
    single expression does. *)
Theorem X7_chain_steps_return_the_chain_object
    (extensions : list Extension) (m m' : Manager) :
  viewReadyPhase extensions m = (Normal tt, m') ->
  exists chain,
    store_chain (store m') = Some chain /\
    (forall name args v r v',
       name ∈ contributed_names extensions ->
       call_step (heap m') chain name args v = (Normal r, v') -> r = chain) /\
    (forall first rest v,
       Forall (fun call : string * list Value =>
                 call.1 ∈ contributed_names extensions) (first ++ rest) ->
       chain_expression (heap m') chain (first ++ rest) v =
         (r1 <- call_steps (heap m') chain first ;;
          l2 <- chain_expression (heap m') chain rest ;;
          ret (r1.2 ++ l2)) v).
Proof.
  intros Hrun. apply viewReadyPhase_completes in Hrun.
  destruct Hrun as [Hacc ->]. apply distinct_of_acceptable in Hacc.
  destruct Hacc as [_ Hall]. rewrite Forall_forall in Hall.
  exists (next_ref m). split; [done|].
  assert (forall name args v r v',
            name <> "run" ->
            call_step (heap (published extensions m)) (next_ref m) name args v
              = (Normal r, v') -> r = next_ref m) as Hstep
    by (intros; by eapply published_step_returns).
  split.
  { intros name args v r v' Hname. apply Hstep. by apply (Hall name). }
  intros first rest v Hnames. apply Forall_app in Hnames.
  destruct Hnames as [Hfirst _].
  assert (Forall (fun call : string * list Value => call.1 <> "run") first)
    as Hfirst'.
  { eapply Forall_impl; [exact Hfirst|]. intros call Hc. by apply (Hall call.1). }
  unfold chain_expression, bind.
  rewrite call_steps_app. unfold bind, ret.
  destruct (call_steps _ _ first v) as [[[r l]|e] v1] eqn:H1; [|done].
  destruct (call_steps_returns _ _ _ _ _ _ _ Hstep Hfirst' H1) as [-> _].
  cbn [fst snd].
  destruct (call_steps _ _ rest v1) as [[[r2 l2]|e] v2]; [|done].
  cbn [fst snd].
  by destruct (call_run _ r2 v2) as [[[]|e] v3].
Qed.

Lemma X7_witness :
  viewReadyPhase sample_extensions new_manager =
    (Normal tt, published sample_extensions new_manager) /\
  exists chain,
    store_chain (store (published sample_extensions new_manager))
      = Some chain /\
    (forall name args v r v',
       name ∈ contributed_names sample_extensions ->
       call_step (heap (published sample_extensions new_manager)) chain
                 name args v = (Normal r, v') -> r = chain) /\
    (forall first rest v,
       Forall (fun call : string * list Value =>
                 call.1 ∈ contributed_names sample_extensions)
              (first ++ rest) ->
       chain_expression (heap (published sample_extensions new_manager)) chain
                        (first ++ rest) v =
         (r1 <- call_steps (heap (published sample_extensions new_manager))
                           chain first ;;
          l2 <- chain_expression
                  (heap (published sample_extensions new_manager)) chain rest ;;
          ret (r1.2 ++ l2)) v).
Proof.
  assert (viewReadyPhase sample_extensions new_manager =
            (Normal tt, published sample_extensions new_manager)) as Hrun
    by (vm_compute; reflexivity).
  split; [exact Hrun|].
  exact (X7_chain_steps_return_the_chain_object _ _ _ Hrun).
Defined.

(** X8. When a step of a chain expression throws, after steps each of which
    has mutated the pending change-set in place at the view where it was
    reached, the expression ends with that error in the view the failing
    command function left: [run()] is not called, and nothing is rolled
    back.  When the failing step started, the edits of the earlier steps
    were in the pending change-set, uncommitted. *)
Theorem X8_failing_step_ends_the_chain_without_rollback
    (extensions : list Extension) (m : Manager)
    (calls : list (string * list Value)) (edits : list (list Edit))
    (ext : Extension) (cs : list (string * ExtensionCommandFunction))
    (name : string) (command : ExtensionCommandFunction) (args : list Value)
    (rest : list (string * list Value)) (v w w' : View) (e : Exception) :
  NoDup (contributed_names extensions) ->
  Forall (fun n => n <> "run" /\ n <> "chain") (contributed_names extensions) ->
  in_place_steps extensions calls edits v w ->
  ext ∈ extensions -> createCommands ext = Some cs -> (name, command) ∈ cs ->
  command args (chain_parameter w) w = (Throw e, w') ->
  exists m' chain,
    viewReadyPhase extensions m = (Normal tt, m') /\
    store_chain (store m') = Some chain /\
    chain_expression (heap m') chain (calls ++ (name, args) :: rest) v
      = (Throw e, w') /\
    state w = state v /\
    dispatched w = dispatched v /\
    edits_of (tr (state v)) w = edits_of (tr (state v)) v ++ concat edits.
Proof.
  intros Hnd Hall Hsteps He Hcs Hc Hthrow.
  destruct (registered extensions m ext cs name command Hnd Hall He Hcs Hc)
    as (Hrun & _ & Hstep).
  exists (published extensions m), (next_ref m).
  destruct (in_place_steps_frame _ _ _ _ _ Hsteps) as (Hst & Hd & Hed).
  split_and!; [exact Hrun|done| |exact Hst|exact Hd|exact Hed].
  pose proof (call_steps_in_place extensions m calls edits v w Hnd Hall Hsteps)
    as Hcalls.
  assert (call_step (heap (published extensions m)) (next_ref m) name args w
            = (Throw e, w')) as Hfail.
  { unfold call_step. cbn [heap published]. rewrite lookup_insert_eq.
    cbn [mbind option_bind]. rewrite Hstep.
    unfold chainedFactory, bind, gets. cbn [cfp_command cfp_chained].
    fold (chain_parameter w). by rewrite Hthrow. }
  unfold chain_expression. unfold bind at 1. rewrite call_steps_app.
  rewrite (bind_normal _ _ _ _ _ Hcalls). cbn [fst snd call_steps].
  by rewrite (bind_throw _ _ _ _ _ (bind_throw _ _ _ _ _ Hfail)).
Qed.

(** The step [chain.toggleBold()] on the sample view, in a registry that
    also holds the command that commits a clone. *)
Lemma failing_steps_in_place :
  in_place_steps failing_extensions [("toggleBold", [])] [["toggleBold"]]
                 sample_view bold_view.
Proof.
  apply (in_place_step _ _ _ _ _ _ _ bold_view _ boldExtension
           [("toggleBold", toggleBold)] toggleBold);
    [apply list_elem_of_In; simpl; auto|reflexivity
    |apply list_elem_of_In; simpl; auto|apply toggleBold_mutates|].
  apply in_place_done.
Qed.

Lemma X8_witness :
  NoDup (contributed_names failing_extensions) /\
  Forall (fun n => n <> "run" /\ n <> "chain")
         (contributed_names failing_extensions) /\
  in_place_steps failing_extensions [("toggleBold", [])] [["toggleBold"]]
                 sample_view bold_view /\
  cloneExtension ∈ failing_extensions /\
  createCommands cloneExtension = Some [("commitClone", commitClone)] /\
  ("commitClone", commitClone) ∈ [("commitClone", commitClone)] /\
  commitClone [] (chain_parameter bold_view) bold_view
    = (Throw ChainTransactionIdentityError, (new_transaction bold_view).2) /\
  exists m' chain,
    viewReadyPhase failing_extensions new_manager = (Normal tt, m') /\
    store_chain (store m') = Some chain /\
    chain_expression (heap m') chain
      ([("toggleBold", [])] ++ ("commitClone", []) :: [("toggleBold", [])])
      sample_view
      = (Throw ChainTransactionIdentityError, (new_transaction bold_view).2) /\
    state bold_view = state sample_view /\
    dispatched bold_view = dispatched sample_view /\
    edits_of (tr (state sample_view)) bold_view
      = edits_of (tr (state sample_view)) sample_view
        ++ concat [["toggleBold"]].
Proof.
  assert (NoDup (contributed_names failing_extensions)) as Hnd
    by (apply (bool_decide_unpack _); vm_compute; exact I).
  assert (Forall (fun n => n <> "run" /\ n <> "chain")
                 (contributed_names failing_extensions)) as Hall
    by (apply (bool_decide_unpack _); vm_compute; exact I).
  assert (cloneExtension ∈ failing_extensions) as He
    by (apply list_elem_of_In; simpl; auto).
  assert (("commitClone", commitClone) ∈ [("commitClone", commitClone)]) as Hc
    by (apply list_elem_of_In; simpl; auto).
  split; [exact Hnd|]. split; [exact Hall|].
  split; [exact failing_steps_in_place|]. split; [exact He|].
  split; [reflexivity|]. split; [exact Hc|]. split; [reflexivity|].
  exact (X8_failing_step_ends_the_chain_without_rollback
           failing_extensions new_manager [("toggleBold", [])]
           [["toggleBold"]] cloneExtension _ "commitClone" commitClone []
           [("toggleBold", [])] sample_view bold_view _
           ChainTransactionIdentityError
           Hnd Hall failing_steps_in_place He eq_refl Hc eq_refl).
Defined.

(** * Further properties of the builtin command *)

(** X9. In a chain, [customTransaction(updater)] never trips the identity
    check of the step: the change-set it hands to the commit operation is
    the pending one of the state the step has captured.  The step does what
    the updater does on that change-set, fails only if the updater throws,
    and otherwise returns the chain object; it commits nothing itself. *)
Theorem X9_customTransaction_chain_step_runs_the_updater
    (extensions : list Extension) (m : Manager)
    (updater : Transaction -> Eff View unit) (rest : list Value) (v : View) :
  NoDup (contributed_names extensions) ->
  Forall (fun n => n <> "run" /\ n <> "chain") (contributed_names extensions) ->
  CommandsExtension ∈ extensions ->
  exists m' chain,
    viewReadyPhase extensions m = (Normal tt, m') /\
    store_chain (store m') = Some chain /\
    call_step (heap m') chain "customTransaction" (VFunction updater :: rest) v
      = (updater (tr (state v)) ;; ret chain) v.
Proof.
  intros Hnd Hall He.
  destruct (registered extensions m CommandsExtension
              [("customTransaction", customTransaction)]
              "customTransaction" customTransaction Hnd Hall He eq_refl)
    as (Hrun & _ & Hstep); [apply list_elem_of_In; simpl; auto|].
  exists (published extensions m), (next_ref m).
  split; [exact Hrun|]. split; [done|].
  unfold call_step. cbn [heap published]. rewrite lookup_insert_eq.
  cbn [mbind option_bind]. rewrite Hstep.
  unfold chainedFactory, customTransaction, call_value, bind, gets, ret.
  cbn [cfp_command cfp_chained nth cp_dispatch cp_state].
  destruct (updater (tr (state v)) v) as [[[]|e] v1]; [|done].
  by rewrite chain_dispatch_same.
Qed.

Lemma X9_witness :
  NoDup (contributed_names sample_extensions) /\
  Forall (fun n => n <> "run" /\ n <> "chain")
         (contributed_names sample_extensions) /\
  CommandsExtension ∈ sample_extensions /\
  exists m' chain,
    viewReadyPhase sample_extensions new_manager = (Normal tt, m') /\
    store_chain (store m') = Some chain /\
    call_step (heap m') chain "customTransaction"
              (VFunction (fun t => modify (add_edits t ["custom"])) :: [])
              sample_view
      = ((fun t => modify (add_edits t ["custom"])) (tr (state sample_view)) ;;
         ret chain) sample_view.
Proof.
  assert (NoDup (contributed_names sample_extensions)) as Hnd
    by (apply (bool_decide_unpack _); vm_compute; exact I).
  assert (Forall (fun n => n <> "run" /\ n <> "chain")
                 (contributed_names sample_extensions)) as Hall
    by (apply (bool_decide_unpack _); vm_compute; exact I).
  assert (CommandsExtension ∈ sample_extensions) as He
    by (apply list_elem_of_In; simpl; auto).
  split; [exact Hnd|]. split; [exact Hall|]. split; [exact He|].
  exact (X9_customTransaction_chain_step_runs_the_updater
           sample_extensions new_manager
           (fun t => modify (add_edits t ["custom"])) [] sample_view
           Hnd Hall He).
Defined.

(** X10. Called directly, [commands.customTransaction(updater)] with an
    updater that adds edits to the change-set it is given focuses the view
    once, commits once, the pending change-set with the edits it had
    followed by the added ones, and returns [true]; the document then
    holds those edits. *)
Theorem X10_customTransaction_direct_call_commits_the_update
    (extensions : list Extension) (m : Manager) (es : list Edit)
    (rest : list Value) (v : View) :
  NoDup (contributed_names extensions) ->
  Forall (fun n => n <> "run" /\ n <> "chain") (contributed_names extensions) ->
  CommandsExtension ∈ extensions ->
  exists m' commands c v',
    viewReadyPhase extensions m = (Normal tt, m') /\
    store_commands (store m') = Some commands /\
    commands !! "customTransaction" = Some c /\
    cs_call c (VFunction (fun t => modify (add_edits t es)) :: rest) v
      = (Normal true, v') /\
    focused v' = S (focused v) /\
    commits_between v v'
      [(tr (state v), edits_of (tr (state v)) v ++ es)] /\
    doc (state v') = doc (state v) ++ edits_of (tr (state v)) v ++ es.
Proof.
  intros Hnd Hall He.
  destruct (registered extensions m CommandsExtension
              [("customTransaction", customTransaction)]
              "customTransaction" customTransaction Hnd Hall He eq_refl)
    as (Hrun & Hcmd & _); [apply list_elem_of_In; simpl; auto|].
  eexists (published extensions m), _, _, _.
  split; [exact Hrun|]. split; [reflexivity|]. split; [exact Hcmd|].
  split; [reflexivity|]. unfold commits_between. cbn.
  unfold edits_of, add_edits, focus_once. cbn. rewrite lookup_insert_eq.
  done.
Qed.

Lemma X10_witness :
  NoDup (contributed_names sample_extensions) /\
  Forall (fun n => n <> "run" /\ n <> "chain")
         (contributed_names sample_extensions) /\
  CommandsExtension ∈ sample_extensions /\
  exists m' commands c v',
    viewReadyPhase sample_extensions new_manager = (Normal tt, m') /\
    store_commands (store m') = Some commands /\
    commands !! "customTransaction" = Some c /\
    cs_call c (VFunction (fun t => modify (add_edits t ["custom"])) :: [])
            sample_view
      = (Normal true, v') /\
    focused v' = S (focused sample_view) /\
    commits_between sample_view v'
      [(tr (state sample_view),
        edits_of (tr (state sample_view)) sample_view ++ ["custom"])] /\
    doc (state v') =
      doc (state sample_view)
      ++ edits_of (tr (state sample_view)) sample_view ++ ["custom"].
Proof.
  assert (NoDup (contributed_names sample_extensions)) as Hnd
    by (apply (bool_decide_unpack _); vm_compute; exact I).
  assert (Forall (fun n => n <> "run" /\ n <> "chain")
                 (contributed_names sample_extensions)) as Hall
    by (apply (bool_decide_unpack _); vm_compute; exact I).
  assert (CommandsExtension ∈ sample_extensions) as He
    by (apply list_elem_of_In; simpl; auto).
  split; [exact Hnd|]. split; [exact Hall|]. split; [exact He|].
  exact (X10_customTransaction_direct_call_commits_the_update
           sample_extensions new_manager ["custom"] [] sample_view
           Hnd Hall He).
Defined.

(** * Steps and direct calls share the pending change-set *)

(** X11. A chain step takes effect when it is called, not at [run()]: after
    steps each of which has mutated the pending change-set in place, and no
    [run()], nothing is committed and the edits wait in the pending
    change-set of the view.  A direct call of a registered command whose
    command function, in that view, adds its own edits to the pending
    change-set and commits it, then commits the edits of those steps with
    its own, in one commit. *)
Theorem X11_direct_call_commits_the_edits_of_unrun_steps
    (extensions : list Extension) (m : Manager)
    (calls : list (string * list Value)) (edits : list (list Edit))
    (ext : Extension) (cs : list (string * ExtensionCommandFunction))
    (name : string) (command : ExtensionCommandFunction) (args : list Value)
    (es : list Edit) (b : bool) (v w w1 : View) :
  NoDup (contributed_names extensions) ->
  Forall (fun n => n <> "run" /\ n <> "chain") (contributed_names extensions) ->
  in_place_steps extensions calls edits v w ->
  ext ∈ extensions -> createCommands ext = Some cs -> (name, command) ∈ cs ->
  command args {| cp_state := state w; cp_dispatch := Some view_dispatch |}
          (focus_once w)
    = (Normal b, commit (tr (state w)) w1) ->
  dispatched w1 = dispatched w ->
  edits_of (tr (state w)) w1 = edits_of (tr (state w)) w ++ es ->
  exists m' chain commands c,
    viewReadyPhase extensions m = (Normal tt, m') /\
    store_chain (store m') = Some chain /\
    store_commands (store m') = Some commands /\
    commands !! name = Some c /\
    call_steps (heap m') chain calls v =
      (Normal (chain, replicate (length calls) chain), w) /\
    dispatched w = dispatched v /\
    cs_call c args w = (Normal b, commit (tr (state w)) w1) /\
    commits_between v (commit (tr (state w)) w1)
      [(tr (state v), edits_of (tr (state v)) v ++ concat edits ++ es)].
Proof.
  intros Hnd Hall Hsteps He Hcs Hc Hcmd Hd1 He1.
  destruct (registered extensions m ext cs name command Hnd Hall He Hcs Hc)
    as (Hrun & Hlook & _).
  destruct (in_place_steps_frame _ _ _ _ _ Hsteps) as (Hst & Hd & Hed).
  eexists (published extensions m), (next_ref m), _, _.
  split_and!; [exact Hrun|done|reflexivity|exact Hlook| |exact Hd| |].
  - exact (call_steps_in_place extensions m calls edits v w Hnd Hall Hsteps).
  - cbn [cs_call]. unfold unchainedFactory, bind, gets, view_focus, modify, ret.
    cbn [ufp_command ufp_shouldDispatch default]. exact Hcmd.
  - unfold commits_between. cbn [dispatched commit].
    rewrite Hd1, Hd, He1, Hst, Hed. by rewrite <- app_assoc.
Qed.

Lemma sample_first_step_in_place :
  in_place_steps sample_extensions [("toggleBold", [])] [["toggleBold"]]
                 sample_view bold_view.
Proof.
  apply (in_place_step _ _ _ _ _ _ _ bold_view _ boldExtension
           [("toggleBold", toggleBold)] toggleBold);
    [apply list_elem_of_In; simpl; auto|reflexivity
    |apply list_elem_of_In; simpl; auto|apply toggleBold_mutates|].
  apply in_place_done.
Qed.

Lemma X11_witness :
  NoDup (contributed_names sample_extensions) /\
  Forall (fun n => n <> "run" /\ n <> "chain")
         (contributed_names sample_extensions) /\
  in_place_steps sample_extensions [("toggleBold", [])] [["toggleBold"]]
                 sample_view bold_view /\
  textExtension ∈ sample_extensions /\
  createCommands textExtension = Some [("insertText", insertText)] /\
  ("insertText", insertText) ∈ [("insertText", insertText)] /\
  insertText [VString "hi"]
    {| cp_state := state bold_view; cp_dispatch := Some view_dispatch |}
    (focus_once bold_view)
    = (Normal true,
       commit (tr (state bold_view))
              (add_edits 0 ["hi"] (focus_once bold_view))) /\
  dispatched (add_edits 0 ["hi"] (focus_once bold_view))
    = dispatched bold_view /\
  edits_of (tr (state bold_view)) (add_edits 0 ["hi"] (focus_once bold_view))
    = edits_of (tr (state bold_view)) bold_view ++ ["hi"] /\
  exists m' chain commands c,
    viewReadyPhase sample_extensions new_manager = (Normal tt, m') /\
    store_chain (store m') = Some chain /\
    store_commands (store m') = Some commands /\
    commands !! "insertText" = Some c /\
    call_steps (heap m') chain [("toggleBold", [])] sample_view =
      (Normal (chain, replicate (length [("toggleBold", @nil Value)]) chain),
       bold_view) /\
    dispatched bold_view = dispatched sample_view /\
    cs_call c [VString "hi"] bold_view
      = (Normal true,
         commit (tr (state bold_view))
                (add_edits 0 ["hi"] (focus_once bold_view))) /\
    commits_between sample_view
      (commit (tr (state bold_view))
              (add_edits 0 ["hi"] (focus_once bold_view)))
      [(tr (state sample_view),
        edits_of (tr (state sample_view)) sample_view
        ++ concat [["toggleBold"]] ++ ["hi"])].
Proof.
  assert (NoDup (contributed_names sample_extensions)) as Hnd
    by (apply (bool_decide_unpack _); vm_compute; exact I).
  assert (Forall (fun n => n <> "run" /\ n <> "chain")
                 (contributed_names sample_extensions)) as Hall
    by (apply (bool_decide_unpack _); vm_compute; exact I).
  assert (textExtension ∈ sample_extensions) as He
    by (apply list_elem_of_In; simpl; auto).
  assert (("insertText", insertText) ∈ [("insertText", insertText)]) as Hc
    by (apply list_elem_of_In; simpl; auto).
  assert (edits_of (tr (state bold_view))
                   (add_edits 0 ["hi"] (focus_once bold_view))
          = edits_of (tr (state bold_view)) bold_view ++ ["hi"]) as He1
    by (vm_compute; reflexivity).
  split; [exact Hnd|]. split; [exact Hall|].
  split; [exact sample_first_step_in_place|]. split; [exact He|].
  split; [reflexivity|]. split; [exact Hc|]. split; [reflexivity|].
  split; [reflexivity|]. split; [exact He1|].
  exact (X11_direct_call_commits_the_edits_of_unrun_steps
           sample_extensions new_manager [("toggleBold", [])]
           [["toggleBold"]] textExtension _ "insertText" insertText
           [VString "hi"] ["hi"] true sample_view bold_view
           (add_edits 0 ["hi"] (focus_once bold_view))
           Hnd Hall sample_first_step_in_place He eq_refl Hc eq_refl eq_refl
           He1).
Defined.
